(** * LegalClauseIntelligence: clause segmentation and clause analysis

    A shallow embedding of [processing/detect_clauses.py] and
    [processing/summarize_and_flag.py], and the properties their
    specification states about them.

    Conventions of the embedding.
    - A Python [str] is a [list ascii]: the text is taken in the code point
      range U+0000..U+00FF, where Python's tables are small enough to be
      written out ([str.isspace] and the regex class [\s], the digits of
      [\d], [str.lower]).
    - The patterns handed to [re] are values of [regex]; [Re.run] is a
      backtracking matcher with Python's order of preference (greedy
      repetition, alternatives from left to right, leftmost match).
    - A Python exception is a value of [exn]; a function that may raise
      returns [result].
    - What the code reads from outside (environment, prompt file, the
      generation service, the [json] and [str.format] library functions) is a
      [Variable] of a [Section]. *)

From Stdlib Require Import List Ascii ZArith NArith Bool Arith Lia.
From Stdlib Require String.
Import ListNotations.
Import String.StringSyntax.
Delimit Scope string_scope with string.

Set Implicit Arguments.

(** ** Python strings *)

Module Py.

Definition str := list ascii.

(** A string literal as a Python string. *)
Definition s (x : String.string) : str := String.list_ascii_of_string x.
Arguments s x%_string_scope : simpl never.

Definition code (c : ascii) : N := N_of_ascii c.

Definition chr_eqb (a b : ascii) : bool := Ascii.eqb a b.
Arguments chr_eqb : simpl never.

Fixpoint str_eqb (a b : str) : bool :=
  match a, b with
  | [], [] => true
  | x :: a', y :: b' => chr_eqb x y && str_eqb a' b'
  | _, _ => false
  end.

(** [c.isspace()], which is also the class [\s] of a [str] pattern. *)
Definition isspace (c : ascii) : bool :=
  let n := code c in
  (((9 <=? n) && (n <=? 13)) || ((28 <=? n) && (n <=? 32))
   || (n =? 133) || (n =? 160))%N.

(** The class [\d] of a [str] pattern. *)
Definition isdigit (c : ascii) : bool :=
  let n := code c in ((48 <=? n) && (n <=? 57))%N.

(** The class [[A-Z]]. *)
Definition isupper_az (c : ascii) : bool :=
  let n := code c in ((65 <=? n) && (n <=? 90))%N.

Definition lower_chr (c : ascii) : ascii :=
  let n := code c in
  if (((65 <=? n) && (n <=? 90)) || ((192 <=? n) && (n <=? 214))
      || ((216 <=? n) && (n <=? 222)))%N
  then ascii_of_N (n + 32) else c.

Definition upper_chr (c : ascii) : ascii :=
  let n := code c in
  if (((97 <=? n) && (n <=? 122)) || ((224 <=? n) && (n <=? 246))
      || ((248 <=? n) && (n <=? 254)))%N
  then ascii_of_N (n - 32) else c.

(** [s.lower()] *)
Definition lower (x : str) : str := map lower_chr x.

(** [s.lstrip()], [s.rstrip()], [s.strip()] *)
Fixpoint lstrip (x : str) : str :=
  match x with
  | c :: x' => if isspace c then lstrip x' else x
  | [] => []
  end.

Definition rstrip (x : str) : str := rev (lstrip (rev x)).

Definition strip (x : str) : str := lstrip (rstrip x).

(** The truth value of a string and of a list: non-empty. *)
Definition truthy_list {A} (l : list A) : bool :=
  match l with [] => false | _ :: _ => true end.

(** [x[a:b]] for [0 <= a <= b]. *)
Definition slice (x : str) (a b : nat) : str := firstn (b - a) (skipn a x).

(** [x.startswith(p)] *)
Fixpoint startswith (x p : str) : bool :=
  match p, x with
  | [], _ => true
  | c :: p', d :: x' => chr_eqb c d && startswith x' p'
  | _ :: _, [] => false
  end.

(** [x.endswith(p)] *)
Definition endswith (x p : str) : bool := startswith (rev x) (rev p).

(** [p in x] *)
Fixpoint contains (x p : str) : bool :=
  startswith x p || match x with [] => false | _ :: x' => contains x' p end.

(** [x.replace(old, new)] for a non-empty [old]: the occurrences of [old]
    from left to right, not overlapping; [skip] counts the characters of an
    occurrence still to be passed over. *)
Fixpoint replace_from (x old new : str) (skip : nat) : str :=
  match skip, x with
  | _, [] => []
  | S k, _ :: x' => replace_from x' old new k
  | O, c :: x' =>
      if startswith x old
      then new ++ replace_from x' old new (length old - 1)
      else c :: replace_from x' old new 0
  end.

Definition replace (x old new : str) : str := replace_from x old new 0.

(** [sep.join(l)] *)
Fixpoint join (sep : str) (l : list str) : str :=
  match l with
  | [] => []
  | [x] => x
  | x :: l' => x ++ sep ++ join sep l'
  end.

(** [any(p(k) for k in l)] *)
Definition any {A} (p : A -> bool) (l : list A) : bool := existsb p l.

End Py.

Import Py.

(** ** The part of Python's [re] that the program uses *)

Module Re.

Inductive regex : Type :=
| Empty                                  (* the empty pattern *)
| Chr (c : ascii)                        (* a literal character *)
| Class (p : ascii -> bool)              (* \s  \d  [A-Z]  [^\n]  ... *)
| Bol                                    (* ^ *)
| Seq (r1 r2 : regex)                    (* r1 r2 *)
| Alt (r1 r2 : regex)                    (* r1|r2 *)
| Star (r : regex)                       (* r*, greedy *)
| Group (n : nat) (r : regex).           (* the n-th capturing group *)

(** [r+] *)
Definition Plus (r : regex) : regex := Seq r (Star r).

(** A run of literal characters. *)
Fixpoint Lit (x : str) : regex :=
  match x with
  | [] => Empty
  | [c] => Chr c
  | c :: x' => Seq (Chr c) (Lit x')
  end.

(** [r1 r2 ... rn] *)
Fixpoint Seqs (l : list regex) : regex :=
  match l with
  | [] => Empty
  | [r] => r
  | r :: l' => Seq r (Seqs l')
  end.

(** [r1|r2|...|rn] *)
Fixpoint Alts (l : list regex) : regex :=
  match l with
  | [] => Empty
  | [r] => r
  | r :: l' => Alt r (Alts l')
  end.

Record flags := { MULTILINE : bool; IGNORECASE : bool }.

(** The matcher's position: the offset in the text, the character before
    it, the text from it on, and the spans of the groups closed so far. *)
Record mstate := {
  pos : nat;
  prev : option ascii;
  rest : str;
  caps : list (nat * (nat * nat))
}.

Definition advance (st : mstate) (c : ascii) (t : str) : mstate :=
  {| pos := S (pos st); prev := Some c; rest := t; caps := caps st |}.

Definition set_cap (n a b : nat) (st : mstate) : mstate :=
  {| pos := pos st; prev := prev st; rest := rest st;
     caps := (n, (a, b)) :: caps st |}.

Definition chr_matches (fl : flags) (c x : ascii) : bool :=
  if IGNORECASE fl then chr_eqb (lower_chr c) (lower_chr x) else chr_eqb c x.

Definition class_matches (fl : flags) (p : ascii -> bool) (x : ascii) : bool :=
  if IGNORECASE fl then p x || p (lower_chr x) || p (upper_chr x) else p x.

(** [^]: the start of the text, and with MULTILINE also after a newline. *)
Definition at_bol (fl : flags) (st : mstate) : bool :=
  match prev st with
  | None => true
  | Some c => MULTILINE fl && chr_eqb c "010"%char
  end.

(** [run fl r st k]: match [r] at [st], then go on with [k]; [None] makes
    the matcher backtrack into the last choice made. An iteration of a
    repetition has to consume a character, so the number of iterations is at
    most the length of the remaining text. *)
Fixpoint run (fl : flags) (r : regex) (st : mstate)
    (k : mstate -> option mstate) {struct r} : option mstate :=
  match r with
  | Empty => k st
  | Chr c =>
      match rest st with
      | x :: t => if chr_matches fl c x then k (advance st x t) else None
      | [] => None
      end
  | Class p =>
      match rest st with
      | x :: t => if class_matches fl p x then k (advance st x t) else None
      | [] => None
      end
  | Bol => if at_bol fl st then k st else None
  | Seq r1 r2 => run fl r1 st (fun st1 => run fl r2 st1 k)
  | Alt r1 r2 =>
      match run fl r1 st k with
      | Some m => Some m
      | None => run fl r2 st k
      end
  | Star r1 =>
      (fix iter (fuel : nat) (st0 : mstate) {struct fuel} : option mstate :=
         match fuel with
         | O => k st0
         | S fuel' =>
             match run fl r1 st0
                     (fun st1 => if pos st0 <? pos st1 then iter fuel' st1
                                 else None) with
             | Some m => Some m
             | None => k st0
             end
         end) (length (rest st)) st
  | Group n r1 =>
      run fl r1 st (fun st1 => k (set_cap n (pos st) (pos st1) st1))
  end.

(** A match object: [m.start()], [m.end()] and the spans of its groups. *)
Record rmatch := {
  m_start : nat;
  m_end : nat;
  m_caps : list (nat * (nat * nat))
}.

(** The match of [r] that starts at offset [p], where [x] is the text from
    [p] on and [pv] the character before it. *)
Definition match_at (fl : flags) (r : regex) (pv : option ascii) (p : nat)
    (x : str) : option rmatch :=
  match run fl r {| pos := p; prev := pv; rest := x; caps := [] |}
            (fun st => Some st) with
  | Some st => Some {| m_start := p; m_end := pos st; m_caps := caps st |}
  | None => None
  end.

(** The matches from left to right, not overlapping. [skip] counts the
    characters of the last match still to be passed over. None of the
    program's patterns matches the empty string; after an empty match this
    scan moves on by one character. *)
Fixpoint scan (fl : flags) (r : regex) (pv : option ascii) (p : nat)
    (x : str) (skip : nat) {struct x} : list rmatch :=
  match skip with
  | S k =>
      match x with
      | [] => []
      | c :: x' => scan fl r (Some c) (S p) x' k
      end
  | O =>
      match match_at fl r pv p x with
      | Some m =>
          m :: match x with
               | [] => []
               | c :: x' => scan fl r (Some c) (S p) x' (m_end m - p - 1)
               end
      | None =>
          match x with
          | [] => []
          | c :: x' => scan fl r (Some c) (S p) x' 0
          end
      end
  end.

(** [list(re.finditer(r, text, flags))] *)
Definition finditer (fl : flags) (r : regex) (text : str) : list rmatch :=
  scan fl r None 0 text 0.

(** [re.search(r, text, flags)] *)
Definition search (fl : flags) (r : regex) (text : str) : option rmatch :=
  hd_error (finditer fl r text).

(** [m.group(n)] of a match on [text], for a group that took part in it. *)
Fixpoint cap_lookup (n : nat) (l : list (nat * (nat * nat)))
    : option (nat * nat) :=
  match l with
  | [] => None
  | (i, sp) :: l' => if i =? n then Some sp else cap_lookup n l'
  end.

Definition group (text : str) (m : rmatch) (n : nat) : str :=
  match cap_lookup n (m_caps m) with
  | Some (a, b) => slice text a b
  | None => []
  end.

(** The text between the matches, from offset [cur] on. *)
Fixpoint pieces (text : str) (cur : nat) (ms : list rmatch) : list str :=
  match ms with
  | [] => [slice text cur (length text)]
  | m :: ms' => slice text cur (m_start m) :: pieces text (m_end m) ms'
  end.

(** [re.sub(r, repl, text)] for a replacement without backslashes. *)
Definition sub (fl : flags) (r : regex) (repl text : str) : str :=
  join repl (pieces text 0 (finditer fl r text)).

(** [re.split(r, text)] for a pattern without groups. *)
Definition split (fl : flags) (r : regex) (text : str) : list str :=
  pieces text 0 (finditer fl r text).

Definition no_flags : flags := {| MULTILINE := false; IGNORECASE := false |}.
Definition multiline : flags := {| MULTILINE := true; IGNORECASE := false |}.
Definition ignorecase : flags := {| MULTILINE := false; IGNORECASE := true |}.
Definition multiline_ignorecase : flags :=
  {| MULTILINE := true; IGNORECASE := true |}.

(** The classes of the program's patterns. *)
Definition ws : regex := Class isspace.                      (* \s *)
Definition digit : regex := Class isdigit.                   (* \d *)
Definition upper_az : regex := Class isupper_az.             (* [A-Z] *)
Definition NL : ascii := "010"%char.
Definition CR : ascii := "013"%char.
Definition not_nl : regex :=                                 (* [^\n] *)
  Class (fun c => negb (chr_eqb c NL)).
Definition not_nl_colon : regex :=                           (* [^\n:] *)
  Class (fun c => negb (chr_eqb c NL) && negb (chr_eqb c ":"%char)).

End Re.

Import Re.

(** ** processing/detect_clauses.py *)

Module DetectClauses.

(** [r'\n\s*\n'], the pattern of a paragraph break. *)
Definition paragraph_break : regex := Seqs [Chr NL; Star ws; Chr NL].

(** [r' +'] *)
Definition spaces : regex := Plus (Chr " "%char).

Definition clean_text_for_clause_detection (text : str) : str :=
  (* Remove excessive whitespace *)
  let text := sub no_flags paragraph_break [NL; NL] text in
  let text := sub no_flags spaces (s " ") text in
  (* Normalize line endings *)
  let text := replace (replace text [CR; NL] [NL]) [CR] [NL] in
  strip text.

(** The loop shared by the numbered and the header strategy: the clause of
    a match runs from its start to the start of the next match, or to the
    end of the text; it is stripped, and kept when something is left. *)
Fixpoint clauses_of_matches (text : str) (matches : list rmatch) : list str :=
  match matches with
  | [] => []
  | m :: rest_matches =>
      let start := m_start m in
      let end_ := match rest_matches with
                  | m' :: _ => m_start m'
                  | [] => length text
                  end in
      let clause_text := strip (slice text start end_) in
      if truthy_list clause_text
      then clause_text :: clauses_of_matches text rest_matches
      else clauses_of_matches text rest_matches
  end.

(** [^\s*(g)] *)
Definition line_start (n : nat) (g : regex) : regex :=
  Seqs [Bol; Star ws; Group n g].

Definition patterns : list regex := [
  line_start 1 (Seqs [Plus digit; Chr "."%char; ws]);               (* 1. 2. 3. *)
  line_start 1 (Seqs [Plus digit; Chr "."%char; Plus digit; ws]);   (* 1.1 1.2 2.1 *)
  line_start 1 (Seqs [Chr "("%char; Plus digit; Chr ")"%char; ws]); (* (1) (2) (3) *)
  line_start 1 (Seqs [upper_az; Chr "."%char; ws]);                 (* A. B. C. *)
  line_start 1 (Seqs [Lit (s "Article"); Plus ws; Plus digit]);     (* Article 1 *)
  line_start 1 (Seqs [Lit (s "Section"); Plus ws; Plus digit])      (* Section 1 *)
].

(** [for pattern in patterns: ...]: the first pattern with at least two
    matches decides. *)
Fixpoint numbered_loop (ps : list regex) (text : str) : list str :=
  match ps with
  | [] => []
  | pattern :: ps' =>
      let matches := finditer multiline pattern text in
      if 2 <=? length matches  (* Need at least 2 sections *)
      then clauses_of_matches text matches
      else numbered_loop ps' text
  end.

Definition detect_numbered_clauses (text : str) : list str :=
  numbered_loop patterns text.

(** The names of the common legal clause headers, as the source lists
    them: the upper-case and the capitalised spelling. *)
Definition header_names : list (String.string * String.string) := [
  ("TERMINATION", "Termination");
  ("LIABILITY", "Liability");
  ("CONFIDENTIALITY", "Confidentiality");
  ("NON-DISCLOSURE", "Non-Disclosure");
  ("PAYMENT", "Payment");
  ("INTELLECTUAL PROPERTY", "Intellectual Property");
  ("GOVERNING LAW", "Governing Law");
  ("DISPUTE RESOLUTION", "Dispute Resolution");
  ("FORCE MAJEURE", "Force Majeure");
  ("INDEMNIFICATION", "Indemnification");
  ("WARRANTIES", "Warranties");
  ("LIMITATION OF LIABILITY", "Limitation of Liability");
  ("ENTIRE AGREEMENT", "Entire Agreement");
  ("AMENDMENT", "Amendment");
  ("ASSIGNMENT", "Assignment");
  ("SEVERABILITY", "Severability");
  ("NOTICES", "Notices");
  ("DEFINITIONS", "Definitions");
  ("SCOPE OF WORK", "Scope of Work");
  ("DELIVERABLES", "Deliverables");
  ("TERM", "Term");
  ("RENEWAL", "Renewal");
  ("CANCELLATION", "Cancellation");
  ("JURISDICTION", "Jurisdiction");
  ("COMPLIANCE", "Compliance");
  ("DATA PROTECTION", "Data Protection");
  ("PRIVACY", "Privacy")
]%string.

(** [headers]: the pattern [^\s*(UPPER|Capitalised)] of each name; its
    group is numbered by its place in the combined pattern. *)
Fixpoint headers_from (n : nat) (l : list (String.string * String.string))
    : list regex :=
  match l with
  | [] => []
  | (u, c) :: l' =>
      line_start n (Alt (Lit (s u)) (Lit (s c))) :: headers_from (S n) l'
  end.

Definition headers : list regex := headers_from 1 header_names.

(** ['|'.join(headers)] *)
Definition combined_pattern : regex := Alts headers.

Definition detect_header_based_clauses (text : str) : list str :=
  let matches := finditer multiline_ignorecase combined_pattern text in
  if 2 <=? length matches
  then clauses_of_matches text matches
  else [].

(** The loop of the paragraph strategy. *)
Fixpoint long_paragraphs (paragraphs : list str) : list str :=
  match paragraphs with
  | [] => []
  | paragraph :: ps =>
      let paragraph := strip paragraph in
      if 100 <? length paragraph  (* Minimum paragraph length *)
      then paragraph :: long_paragraphs ps
      else long_paragraphs ps
  end.

Definition detect_paragraph_based_clauses (text : str) : list str :=
  let paragraphs := split no_flags paragraph_break text in
  long_paragraphs paragraphs.

(** The loop that filters out very short clauses. *)
Fixpoint filter_short (clauses : list str) : list str :=
  match clauses with
  | [] => []
  | clause :: cs =>
      if 50 <? length (strip clause)  (* Minimum clause length *)
      then strip clause :: filter_short cs
      else filter_short cs
  end.

Definition detect_clauses (text : str) : list str :=
  if negb (truthy_list text) || negb (truthy_list (strip text)) then []
  else
    (* Clean the text first *)
    let cleaned_text := clean_text_for_clause_detection text in
    let clauses : list str := [] in
    (* Method 1: Numbered sections *)
    let numbered_clauses := detect_numbered_clauses cleaned_text in
    let clauses :=
      if truthy_list numbered_clauses && (2 <? length numbered_clauses)
      then numbered_clauses else clauses in
    (* Method 2: Header-based detection if numbered detection fails *)
    let clauses :=
      if negb (truthy_list clauses)
      then
        let header_clauses := detect_header_based_clauses cleaned_text in
        if truthy_list header_clauses && (1 <? length header_clauses)
        then header_clauses else clauses
      else clauses in
    (* Method 3: Paragraph-based detection as fallback *)
    let clauses :=
      if negb (truthy_list clauses)
      then detect_paragraph_based_clauses cleaned_text
      else clauses in
    (* Filter out very short clauses *)
    let filtered_clauses := filter_short clauses in
    if truthy_list filtered_clauses then filtered_clauses else [cleaned_text].

End DetectClauses.

Import DetectClauses.

(** ** Python objects and exceptions *)

Module Obj.

(** The exceptions the program meets. [JSONDecodeError] is the one that
    [parse_gemini_response] catches; [except Exception] catches all. *)
Inductive exn : Type :=
| ValueError (msg : str)
| JSONDecodeError
| TypeError
| AttributeError
| FileNotFoundError
| OtherError (name : str).

Inductive result (A : Type) : Type :=
| Ok (a : A)
| Raise (e : exn).

Arguments Ok {A} a.
Arguments Raise {A} e.

Definition bind {A B} (x : result A) (f : A -> result B) : result B :=
  match x with
  | Ok a => f a
  | Raise e => Raise e
  end.

(** The objects [json.loads] builds, which are also the values of the
    analysis dictionaries. A [float] is kept as the decimal numeral it was
    written as, [VFloat m e] standing for [m * 10^e]. *)
#[local] Unset Elimination Schemes.
Inductive value : Type :=
| VNone
| VBool (b : bool)
| VInt (z : Z)
| VFloat (m e : Z)
| VNaN
| VInf (negative : bool)
| VStr (x : str)
| VList (l : list value)
| VDict (d : list (str * value)).
#[local] Set Elimination Schemes.

(** A [dict] with string keys, in insertion order. *)
Definition dict := list (str * value).

Fixpoint dict_get (d : dict) (k : str) : option value :=
  match d with
  | [] => None
  | (k', v) :: d' => if str_eqb k' k then Some v else dict_get d' k
  end.

Definition dict_in (k : str) (d : dict) : bool :=
  match dict_get d k with Some _ => true | None => false end.

(** [d[k] = v]: the value of a key already there is replaced in place, a
    new key goes to the end. *)
Fixpoint dict_set (d : dict) (k : str) (v : value) : dict :=
  match d with
  | [] => [(k, v)]
  | (k', v') :: d' =>
      if str_eqb k' k then (k', v) :: d' else (k', v') :: dict_set d' k v
  end.

(** [d.get(k, default)] *)
Definition dict_get_default (d : dict) (k : str) (default : value) : value :=
  match dict_get d k with
  | Some v => v
  | None => default
  end.

(** Whether the decimal numeral [m * 10^e] is read as a float other than
    zero: it is not zero, and it is above half the least positive float,
    [2^-1075]. *)
Definition float_nonzero (m e : Z) : bool :=
  (if m =? 0 then false
   else if 0 <=? e then true
   else 10 ^ (- e) <? Z.abs m * 2 ^ 1075)%Z.

(** The truth value of an object. *)
Definition truthy (v : value) : bool :=
  match v with
  | VNone => false
  | VBool b => b
  | VInt z => negb (z =? 0)%Z
  | VFloat m e => float_nonzero m e
  | VNaN => true
  | VInf _ => true
  | VStr x => truthy_list x
  | VList l => truthy_list l
  | VDict d => truthy_list d
  end.

(** [x == k] for a string [k]. *)
Definition eq_str (x : value) (k : str) : bool :=
  match x with
  | VStr y => str_eqb y k
  | _ => false
  end.

(** [k in obj] for a string [k]. *)
Definition py_in (k : str) (obj : value) : result bool :=
  match obj with
  | VDict d => Ok (dict_in k d)
  | VList l => Ok (existsb (fun x => eq_str x k) l)
  | VStr x => Ok (contains x k)
  | _ => Raise TypeError
  end.

(** [obj[k] = v] for a string [k]. *)
Definition py_setitem (obj : value) (k : str) (v : value) : result value :=
  match obj with
  | VDict d => Ok (VDict (dict_set d k v))
  | _ => Raise TypeError
  end.

(** [obj.get(k, default)] *)
Definition py_get (obj : value) (k : str) (default : value) : result value :=
  match obj with
  | VDict d => Ok (dict_get_default d k default)
  | _ => Raise AttributeError
  end.

End Obj.

Import Obj.

Notation "x <- c1 ;; c2" := (bind c1 (fun x => c2))
  (at level 61, c1 at next level, right associativity).

(** ** processing/summarize_and_flag.py *)

Module SummarizeAndFlag.

Definition float_0_0 : value := VFloat 0 (-1).
Definition float_0_5 : value := VFloat 5 (-1).
Definition float_0_7 : value := VFloat 7 (-1).

Definition get_default_value (field : str) : value :=
  let defaults : dict := [
    (s "clause_type", VStr (s "Unknown"));
    (s "summary", VStr (s "No summary available"));
    (s "risk_flag", VBool false);
    (s "risk_reason", VStr (s ""));
    (s "confidence", float_0_5)
  ] in
  dict_get_default defaults field (VStr (s "")).

(** The pattern [(?:clause type|type):\s*([^\n]+)]. *)
Definition type_pattern : regex :=
  Seqs [Alt (Lit (s "clause type")) (Lit (s "type")); Chr ":"%char; Star ws;
        Group 1 (Plus not_nl)].

(** The pattern [(?:summary|explanation):\s*(G)], whose group [G] is
    [[^\n]+] followed by any number of [\n[^\n:]+]. *)
Definition summary_pattern : regex :=
  Seqs [Alt (Lit (s "summary")) (Lit (s "explanation")); Chr ":"%char;
        Star ws;
        Group 1 (Seq (Plus not_nl) (Star (Seq (Chr NL) (Plus not_nl_colon))))].

Definition risk_keywords : list str :=
  [s "risk"; s "danger"; s "concern"; s "warning"; s "caution";
   s "problematic"].

(** The fallback parser for a response that is not JSON. *)
Definition parse_non_json_response (response_text : str) : value :=
  let analysis : dict := [
    (s "clause_type", VStr (s "Unknown"));
    (s "summary", VStr (s "Could not parse AI response properly"));
    (s "risk_flag", VBool false);
    (s "risk_reason", VStr (s ""));
    (s "confidence", float_0_5)
  ] in
  (* Extract clause type *)
  let analysis :=
    match search ignorecase type_pattern response_text with
    | Some type_match =>
        dict_set analysis (s "clause_type")
          (VStr (strip (group response_text type_match 1)))
    | None => analysis
    end in
  (* Extract summary *)
  let analysis :=
    match search ignorecase summary_pattern response_text with
    | Some summary_match =>
        dict_set analysis (s "summary")
          (VStr (strip (group response_text summary_match 1)))
    | None => analysis
    end in
  (* Check for risk indicators *)
  let analysis :=
    if any (fun keyword => contains (lower response_text) keyword)
           risk_keywords
    then dict_set (dict_set analysis (s "risk_flag") (VBool true))
           (s "risk_reason") (VStr (s "Potential risks mentioned in analysis"))
    else analysis in
  VDict analysis.

Definition required_fields : list str :=
  [s "clause_type"; s "summary"; s "risk_flag"].

(** [for field in required_fields: if field not in analysis: ...] *)
Fixpoint validate_required (fields : list str) (analysis : value)
    : result value :=
  match fields with
  | [] => Ok analysis
  | field :: fields' =>
      present <- py_in field analysis ;;
      analysis <- (if negb present
                   then py_setitem analysis field (get_default_value field)
                   else Ok analysis) ;;
      validate_required fields' analysis
  end.

(** The text handed to [json.loads]: the response stripped, without a
    leading [```json] and a trailing [```], stripped again. *)
Definition fence_open : str := s "```json".
Definition fence_close : str := s "```".

Definition clean_response (response_text : str) : str :=
  let cleaned_response := strip response_text in
  let cleaned_response :=
    if startswith cleaned_response fence_open
    then skipn 7 cleaned_response else cleaned_response in
  let cleaned_response :=
    if endswith cleaned_response fence_close
    then firstn (length cleaned_response - 3) cleaned_response
    else cleaned_response in
  strip cleaned_response.

Definition placeholder_reason : str :=
  s "Potential risk detected but no specific reason provided".

Section Parser.

(** [json.loads], of Python's library: the object decoded, or the exception
    raised. *)
Variable json_loads : str -> result value.

Definition parse_gemini_response (response_text : str) : result value :=
  let cleaned_response := clean_response response_text in
  match json_loads cleaned_response with
  | Raise JSONDecodeError =>
      (* Fallback parsing for non-JSON responses *)
      Ok (parse_non_json_response response_text)
  | Raise e => Raise e
  | Ok analysis =>
      (* Validate required fields *)
      analysis <- validate_required required_fields analysis ;;
      (* Ensure risk_reason is present if risk_flag is True *)
      flag <- py_get analysis (s "risk_flag") (VBool false) ;;
      analysis <-
        (if truthy flag
         then
           reason <- py_get analysis (s "risk_reason") VNone ;;
           if negb (truthy reason)
           then py_setitem analysis (s "risk_reason") (VStr placeholder_reason)
           else Ok analysis
         else Ok analysis) ;;
      (* Set default confidence if not provided *)
      present <- py_in (s "confidence") analysis ;;
      analysis <- (if negb present
                   then py_setitem analysis (s "confidence") float_0_7
                   else Ok analysis) ;;
      Ok analysis
  end.

End Parser.

(** The catalogue of risk patterns: key, keywords, description. *)
Record risk_pattern := {
  risk_type : str;
  keywords : list str;
  description : str
}.

Definition risk_patterns : list risk_pattern := [
  {| risk_type := s "auto_renewal";
     keywords := [s "auto-renew"; s "automatically renew";
                  s "automatic renewal"; s "evergreen"];
     description :=
       s "Automatic renewal clause - may lock you into ongoing commitments" |};
  {| risk_type := s "exclusivity";
     keywords := [s "exclusive"; s "solely"; s "only work with";
                  s "exclusively"];
     description :=
       s "Exclusivity clause - may limit your business opportunities" |};
  {| risk_type := s "unlimited_liability";
     keywords := [s "unlimited liability"; s "no limit to liability";
                  s "fully liable"];
     description :=
       s "Unlimited liability - you could be responsible for significant damages" |};
  {| risk_type := s "indemnification";
     keywords := [s "indemnify"; s "hold harmless"; s "defend and hold"];
     description :=
       s "Indemnification clause - you may be required to cover legal costs and damages" |};
  {| risk_type := s "broad_termination";
     keywords := [s "terminate at will"; s "terminate without cause";
                  s "immediate termination"];
     description :=
       s "Broad termination rights - the other party can end the agreement easily" |};
  {| risk_type := s "ip_assignment";
     keywords := [s "assign all rights"; s "transfer ownership";
                  s "work for hire"];
     description :=
       s "Intellectual property assignment - you may lose rights to your work" |};
  {| risk_type := s "penalty_clauses";
     keywords := [s "penalty"; s "liquidated damages";
                  s "substantial damages"];
     description :=
       s "Penalty clause - you may face financial penalties for breach" |};
  {| risk_type := s "governing_law";
     keywords := [s "governed by laws of"; s "jurisdiction of";
                  s "courts of"];
     description :=
       s "Jurisdiction clause - legal disputes may need to be resolved in unfavorable location" |};
  {| risk_type := s "modification_restrictions";
     keywords := [s "cannot be modified"; s "no modifications";
                  s "written consent required"];
     description :=
       s "Modification restrictions - agreement may be difficult to change later" |};
  {| risk_type := s "confidentiality_overreach";
     keywords := [s "perpetual confidentiality";
                  s "permanent non-disclosure";
                  s "indefinite confidentiality"];
     description :=
       s "Excessive confidentiality terms - may restrict your business activities indefinitely" |}
].

(** [for risk_type, risk_data in risk_patterns.items(): ...] *)
Fixpoint detected_risks (clause_lower : str) (ps : list risk_pattern)
    : list str :=
  match ps with
  | [] => []
  | risk_data :: ps' =>
      if any (fun keyword => contains clause_lower keyword)
             (keywords risk_data)
      then description risk_data :: detected_risks clause_lower ps'
      else detected_risks clause_lower ps'
  end.

Definition detect_keyword_based_risks (clause_text : str) : str :=
  let clause_lower := lower clause_text in
  let detected := detected_risks clause_lower risk_patterns in
  if truthy_list detected then join (s "; ") detected else s "".


Definition DQ : ascii := "034"%char.

(** A text between double quotes. *)
Definition quoted (x : String.string) : str := [DQ] ++ s x ++ [DQ].
Arguments quoted x%_string_scope.

Definition get_default_legal_analysis_prompt : str :=
  join [NL] [
    s "";
    s "You are a legal analysis AI assistant. Analyze the following legal contract clause and provide a structured response.";
    s "";
    s "Instructions:";
    s "1. Identify the clause type (e.g., Termination, Liability, Confidentiality, Payment, IP Rights, etc.)";
    s "2. Provide a plain English summary that a non-lawyer can understand";
    s "3. Assess if there are any significant legal risks or red flags";
    s "4. Provide reasoning for any risk flags";
    s "";
    s "Be objective and focus on potential power imbalances, hidden conditions, or unusual terms that could disadvantage one party.";
    s "";
    s "Clause to analyze:";
    s "{clause_text}";
    s "";
    s "Please respond in the following JSON format:";
    s "{{";
    s "    " ++ quoted "clause_type" ++ s ": "
      ++ quoted "The type of legal clause" ++ s ",";
    s "    " ++ quoted "summary" ++ s ": "
      ++ quoted "Plain English explanation of what this clause means and does"
      ++ s ",";
    s "    " ++ quoted "risk_flag" ++ s ": true/false,";
    s "    " ++ quoted "risk_reason" ++ s ": "
      ++ quoted "Explanation of why this clause might be risky (only if risk_flag is true)"
      ++ s ",";
    s "    " ++ quoted "confidence" ++ s ": 0.85";
    s "}}";
    s "";
    s "Ensure your response is valid JSON and nothing else.";
    s ""
  ].

(** The dictionary [analyze_clauses_with_gemini] builds for a clause. *)
Record clause_data := {
  original_text : str;
  clause_type : value;
  summary : value;
  risk_flag : value;
  risk_reason : value;
  confidence : value
}.

(** The fallback analysis for failed clauses. *)
Definition fallback_data (clause_text : str) : clause_data :=
  {| original_text := clause_text;
     clause_type := VStr (s "Unknown");
     summary := VStr (s "Analysis failed - manual review required");
     risk_flag := VBool true;
     risk_reason :=
       VStr (s "Could not analyze with AI - requires manual review");
     confidence := float_0_0 |}.

(** The dictionary built from a finished analysis. *)
Definition analysis_data (clause_text : str) (analysis : value)
    : result clause_data :=
  ct <- py_get analysis (s "clause_type") (VStr (s "Unknown")) ;;
  sm <- py_get analysis (s "summary") (VStr (s "No summary available")) ;;
  rf <- py_get analysis (s "risk_flag") (VBool false) ;;
  rr <- py_get analysis (s "risk_reason") (VStr (s "")) ;;
  cf <- py_get analysis (s "confidence") float_0_0 ;;
  Ok {| original_text := clause_text; clause_type := ct; summary := sm;
        risk_flag := rf; risk_reason := rr; confidence := cf |}.

Section Analyzer.

(** The client object of the generation service. *)
Variable client : Type.
(** [os.environ.get("GEMINI_API_KEY")] *)
Variable api_key : option str.
(** [genai.Client(api_key=...)] *)
Variable genai_Client : str -> result client.
(** Reading [prompts/legal_analysis_prompt.txt]. *)
Variable read_prompt_file : result str.
(** [prompt.format(clause_text=...)], of Python's library. *)
Variable str_format : str -> str -> result str.
(** [json.loads], of Python's library. *)
Variable json_loads : str -> result value.

Definition get_gemini_client : result client :=
  match api_key with
  | Some key =>
      if truthy_list key then genai_Client key
      else Raise (ValueError
                    (s "GEMINI_API_KEY environment variable is not set"))
  | None =>
      Raise (ValueError (s "GEMINI_API_KEY environment variable is not set"))
  end.

Definition load_legal_analysis_prompt : result str :=
  match read_prompt_file with
  | Raise FileNotFoundError =>
      (* Return default prompt if file not found *)
      Ok get_default_legal_analysis_prompt
  | r => r
  end.

(** [response.text] on an answer of the service: a text, or [None]. *)
Definition response_text_of (text : option str) : result str :=
  match text with
  | Some x =>
      if truthy_list x then Ok x
      else Raise (ValueError (s "Empty response from Gemini API"))
  | None => Raise (ValueError (s "Empty response from Gemini API"))
  end.

(** Add additional risk detection based on keywords. *)
Definition merge_keyword_risks (clause_text : str) (analysis : value)
    : result value :=
  let additional_risks := detect_keyword_based_risks clause_text in
  if truthy_list additional_risks
  then
    flag <- py_get analysis (s "risk_flag") (VBool false) ;;
    if negb (truthy flag)
    then
      analysis <- py_setitem analysis (s "risk_flag") (VBool true) ;;
      py_setitem analysis (s "risk_reason") (VStr additional_risks)
    else Ok analysis
  else Ok analysis.

(** [analyze_single_clause], with the global [client] as a state that is
    passed in and out, and [generate_content] the behaviour of
    [client.models.generate_content] at the time of the call: the text of
    the response, or the exception raised. *)
Definition analyze_single_clause
    (generate_content : client -> str -> result (option str))
    (global_client : option client) (clause_text : str)
    : option client * result value :=
  (* Initialize client if not already done *)
  match (match global_client with
         | Some c => Ok c
         | None => get_gemini_client
         end) with
  | Raise e => (global_client, Raise e)
  | Ok c =>
      (Some c,
       prompt <- load_legal_analysis_prompt ;;
       formatted_prompt <- str_format prompt clause_text ;;
       response <- generate_content c formatted_prompt ;;
       text <- response_text_of response ;;
       analysis <- parse_gemini_response json_loads text ;;
       merge_keyword_risks clause_text analysis)
  end.

(** The behaviour of the service at the time of the request for the
    [i]-th clause of a batch. *)
Variable generate_content : nat -> client -> str -> result (option str).

(** The loop of [analyze_clauses_with_gemini], from the [i]-th clause on. *)
Fixpoint analyze_from (i : nat) (global_client : option client)
    (clauses : list str) : option client * list clause_data :=
  match clauses with
  | [] => (global_client, [])
  | clause_text :: clauses' =>
      let (global_client, analysis) :=
        analyze_single_clause (generate_content i) global_client
          clause_text in
      let data :=
        match analysis <- analysis ;; analysis_data clause_text analysis with
        | Ok data => data
        | Raise _ => fallback_data clause_text
        end in
      let (global_client, analyzed_clauses) :=
        analyze_from (S i) global_client clauses' in
      (global_client, data :: analyzed_clauses)
  end.

Definition analyze_clauses_with_gemini (global_client : option client)
    (clauses : list str) : option client * list clause_data :=
  analyze_from 0 global_client clauses.

End Analyzer.

End SummarizeAndFlag.

Import SummarizeAndFlag.

(** ** A decoder to run the parser with

    [json.loads] is a parameter of the parser. To evaluate the parser on
    concrete responses we give it [JsonRef.loads], a decoder of JSON texts in
    the way of Python's [json] module (objects, arrays, strings with their
    escapes, numbers, [true], [false], [null], [NaN] and the infinities;
    blanks between tokens; the last of several equal keys wins). A [\u]
    escape above U+00FF is outside the range of [str] and refused. *)

Module JsonRef.

Definition is_blank (c : ascii) : bool :=
  chr_eqb c " "%char || chr_eqb c "009"%char || chr_eqb c NL || chr_eqb c CR.

Fixpoint skip_blanks (x : str) : str :=
  match x with
  | c :: x' => if is_blank c then skip_blanks x' else x
  | [] => []
  end.

Definition hex_digit (c : ascii) : option N :=
  let n := code c in
  if ((48 <=? n) && (n <=? 57))%N then Some (n - 48)%N
  else if ((65 <=? n) && (n <=? 70))%N then Some (n - 55)%N
  else if ((97 <=? n) && (n <=? 102))%N then Some (n - 87)%N
  else None.

Definition hex4 (a b c d : ascii) : option N :=
  match hex_digit a, hex_digit b, hex_digit c, hex_digit d with
  | Some x, Some y, Some z, Some w => Some (((x * 16 + y) * 16 + z) * 16 + w)%N
  | _, _, _, _ => None
  end.

(** The characters of a string up to its closing quote, and what follows. *)
Fixpoint scan_string (x : str) (fuel : nat) : option (str * str) :=
  match fuel with
  | O => None
  | S fuel' =>
      match x with
      | [] => None
      | c :: x' =>
          if chr_eqb c DQ then Some ([], x')
          else if chr_eqb c "\"%char then
            match x' with
            | e :: x'' =>
                let plain (d : ascii) :=
                  match scan_string x'' fuel' with
                  | Some (body, r) => Some (d :: body, r)
                  | None => None
                  end in
                if chr_eqb e DQ then plain DQ
                else if chr_eqb e "\"%char then plain "\"%char
                else if chr_eqb e "/"%char then plain "/"%char
                else if chr_eqb e "b"%char then plain "008"%char
                else if chr_eqb e "f"%char then plain "012"%char
                else if chr_eqb e "n"%char then plain NL
                else if chr_eqb e "r"%char then plain CR
                else if chr_eqb e "t"%char then plain "009"%char
                else if chr_eqb e "u"%char then
                  match x'' with
                  | h1 :: h2 :: h3 :: h4 :: x3 =>
                      match hex4 h1 h2 h3 h4 with
                      | Some n =>
                          if (n <? 256)%N then
                            match scan_string x3 fuel' with
                            | Some (body, r) => Some (ascii_of_N n :: body, r)
                            | None => None
                            end
                          else None
                      | None => None
                      end
                  | _ => None
                  end
                else None
            | [] => None
            end
          else if (code c <? 32)%N then None
          else
            match scan_string x' fuel' with
            | Some (body, r) => Some (c :: body, r)
            | None => None
            end
      end
  end.

(** The digits at the head of a text, and what follows. *)
Fixpoint take_digits (x : str) : str * str :=
  match x with
  | c :: x' =>
      if isdigit c then let (d, r) := take_digits x' in (c :: d, r)
      else ([], x)
  | [] => ([], [])
  end.

Definition digits_value (d : str) : Z :=
  fold_left (fun acc c => (acc * 10 + Z.of_N (code c - 48))%Z) d 0%Z.

(** A number: an integer part, then maybe a fraction, then maybe an
    exponent. *)
Definition scan_number (x : str) : option (value * str) :=
  let (negative, x1) :=
    match x with
    | c :: x' => if chr_eqb c "-"%char then (true, x') else (false, x)
    | [] => (false, x)
    end in
  let (int_digits, x2) :=
    match x1 with
    | c :: x' =>
        if chr_eqb c "0"%char then ([c], x')
        else take_digits x1
    | [] => ([], x1)
    end in
  match int_digits with
  | [] => None
  | _ :: _ =>
      let sign (z : Z) := if negative then (- z)%Z else z in
      let (frac_digits, x3) :=
        match x2 with
        | c :: x' =>
            if chr_eqb c "."%char then
              match take_digits x' with
              | ([], _) => ([], x2)
              | (d, r) => (d, r)
              end
            else ([], x2)
        | [] => ([], x2)
        end in
      let exponent : option (Z * str) :=
        match x3 with
        | c :: x' =>
            if chr_eqb c "e"%char || chr_eqb c "E"%char then
              let (eneg, x'') :=
                match x' with
                | d :: y =>
                    if chr_eqb d "-"%char then (true, y)
                    else if chr_eqb d "+"%char then (false, y)
                    else (false, x')
                | [] => (false, x')
                end in
              match take_digits x'' with
              | ([], _) => None
              | (d, r) =>
                  Some (if eneg then (- digits_value d)%Z
                        else digits_value d, r)
              end
            else None
        | [] => None
        end in
      match frac_digits, exponent with
      | [], None => Some (VInt (sign (digits_value int_digits)), x3)
      | _, None =>
          Some (VFloat (sign (digits_value (int_digits ++ frac_digits)))
                  (- Z.of_nat (length frac_digits)), x3)
      | _, Some (e, r) =>
          Some (VFloat (sign (digits_value (int_digits ++ frac_digits)))
                  (e - Z.of_nat (length frac_digits)), r)
      end
  end.

Definition after (x p : str) : option str :=
  if startswith x p then Some (skipn (length p) x) else None.

Definition scan_constant (x : str) : option (value * str) :=
  match after x (s "null"), after x (s "true"), after x (s "false"),
        after x (s "NaN"), after x (s "Infinity"), after x (s "-Infinity") with
  | Some r, _, _, _, _, _ => Some (VNone, r)
  | _, Some r, _, _, _, _ => Some (VBool true, r)
  | _, _, Some r, _, _, _ => Some (VBool false, r)
  | _, _, _, Some r, _, _ => Some (VNaN, r)
  | _, _, _, _, Some r, _ => Some (VInf false, r)
  | _, _, _, _, _, Some r => Some (VInf true, r)
  | _, _, _, _, _, _ => None
  end.

(** What the scanner is reading: a value, the items of an array, or the
    members of an object, with those read so far in reverse. *)
Inductive task : Type :=
| AValue
| Items (done : list value)
| Members (done : list (str * value)).

Definition dict_of_pairs (pairs : list (str * value)) : dict :=
  fold_left (fun d kv => dict_set d (fst kv) (snd kv)) pairs [].

Fixpoint scan_value (fuel : nat) (t : task) (x : str)
    : option (value * str) :=
  match fuel with
  | O => None
  | S fuel' =>
      match t with
      | AValue =>
          match x with
          | [] => None
          | c :: x' =>
              if chr_eqb c DQ then
                match scan_string x' (S (length x')) with
                | Some (body, r) => Some (VStr body, r)
                | None => None
                end
              else if chr_eqb c "["%char then
                match skip_blanks x' with
                | d :: r =>
                    if chr_eqb d "]"%char then Some (VList [], r)
                    else scan_value fuel' (Items []) (d :: r)
                | [] => None
                end
              else if chr_eqb c "{"%char then
                match skip_blanks x' with
                | d :: r =>
                    if chr_eqb d "}"%char then Some (VDict [], r)
                    else scan_value fuel' (Members []) (d :: r)
                | [] => None
                end
              else
                match scan_number x with
                | Some (v, r) => Some (v, r)
                | None => scan_constant x
                end
          end
      | Items done =>
          match scan_value fuel' AValue x with
          | Some (v, r) =>
              match skip_blanks r with
              | d :: r' =>
                  if chr_eqb d ","%char
                  then scan_value fuel' (Items (v :: done)) (skip_blanks r')
                  else if chr_eqb d "]"%char
                  then Some (VList (rev (v :: done)), r')
                  else None
              | [] => None
              end
          | None => None
          end
      | Members done =>
          match x with
          | q :: x' =>
              if chr_eqb q DQ then
                match scan_string x' (S (length x')) with
                | Some (key, r) =>
                    match skip_blanks r with
                    | colon :: r1 =>
                        if chr_eqb colon ":"%char then
                          match scan_value fuel' AValue (skip_blanks r1) with
                          | Some (v, r2) =>
                              match skip_blanks r2 with
                              | d :: r3 =>
                                  if chr_eqb d ","%char
                                  then scan_value fuel'
                                         (Members ((key, v) :: done))
                                         (skip_blanks r3)
                                  else if chr_eqb d "}"%char
                                  then Some (VDict (dict_of_pairs
                                                      (rev ((key, v) :: done))),
                                             r3)
                                  else None
                              | [] => None
                              end
                          | None => None
                          end
                        else None
                    | [] => None
                    end
                | None => None
                end
              else None
          | [] => None
          end
      end
  end.

(** The whole text is one value, with blanks around it at most. *)
Definition loads (x : str) : result value :=
  match scan_value (2 * length x + 2) AValue (skip_blanks x) with
  | Some (v, r) =>
      match skip_blanks r with
      | [] => Ok v
      | _ :: _ => Raise JSONDecodeError
      end
  | None => Raise JSONDecodeError
  end.

End JsonRef.

(** ** What the specification calls things *)

(** The post-filter of the segmenter on the candidates a strategy returned:
    the candidates of stripped length above 50, stripped; the whole
    normalized text when none is left. *)
Definition post_filter (cleaned_text : str) (clauses : list str) : list str :=
  let filtered_clauses := filter_short clauses in
  if truthy_list filtered_clauses then filtered_clauses else [cleaned_text].

(** A text that is empty or consists only of whitespace. *)
Definition blank (text : str) : Prop := Forall (fun c => isspace c = true) text.

(** The example contract of the specification. *)
Definition clause_1 : str := s "1. Term. This agreement lasts one year.".
Definition clause_2 : str :=
  s "2. Termination. Either party may terminate at will.".
Definition example_contract : str := clause_1 ++ [NL; NL] ++ clause_2.

Definition broad_termination_description : str :=
  s "Broad termination rights - the other party can end the agreement easily".

(** Three numbered sections, each too short for the post-filter. *)
Definition short_sections : str :=
  s "1. a" ++ [NL] ++ s "2. b" ++ [NL] ++ s "3. c".

(** Three numbered sections, each long enough for the post-filter. *)
Definition section_1 : str :=
  s "1. Term. This agreement lasts one year from the effective date.".
Definition section_2 : str :=
  s "2. Payment. The client pays every invoice within thirty days.".
Definition section_3 : str :=
  s "3. Termination. Either party may terminate at will with notice.".
Definition long_sections : str :=
  section_1 ++ [NL] ++ section_2 ++ [NL] ++ section_3.

(** A pattern yields at least two matches on a text. *)
Definition qualifies (pattern : regex) (text : str) : bool :=
  2 <=? length (finditer multiline pattern text).

(** What the validation loop does to a dictionary for one field: a field
    that is absent gets its default. *)
Definition backfill (d : dict) (field : str) : dict :=
  if dict_in field d then d else dict_set d field (get_default_value field).

(** What [parse_gemini_response] makes of a decoded dictionary. *)
Definition parsed_object (d : dict) : dict :=
  let d := fold_left backfill required_fields d in
  let d :=
    if truthy (dict_get_default d (s "risk_flag") (VBool false))
       && negb (truthy (dict_get_default d (s "risk_reason") VNone))
    then dict_set d (s "risk_reason") (VStr placeholder_reason)
    else d in
  if dict_in (s "confidence") d then d
  else dict_set d (s "confidence") float_0_7.

(** How the fields of the parser's result come from a decoded dictionary
    [d]: the three required fields and the confidence from [d] or their
    defaults; the risk reason as [d] has it, absent when [d] has none, but
    for the placeholder when the flag is set and [d] gives no reason. *)
Definition object_fields (d analysis : dict) : Prop :=
  let flag := dict_get_default d (s "risk_flag") (VBool false) in
  dict_get analysis (s "clause_type")
  = Some (dict_get_default d (s "clause_type") (VStr (s "Unknown")))
  /\ dict_get analysis (s "summary")
     = Some (dict_get_default d (s "summary")
               (VStr (s "No summary available")))
  /\ dict_get analysis (s "risk_flag") = Some flag
  /\ dict_get analysis (s "confidence")
     = Some (dict_get_default d (s "confidence") float_0_7)
  /\ dict_get analysis (s "risk_reason")
     = (if truthy flag
           && negb (truthy (dict_get_default d (s "risk_reason") VNone))
        then Some (VStr placeholder_reason)
        else dict_get d (s "risk_reason")).

(** How the fields of the fallback parser's result come from the text:
    what the two patterns recover, whether a risk word occurs, and the
    defaults. *)
Definition fallback_fields (response_text : str) (analysis : dict) : Prop :=
  let risky :=
    any (fun keyword => contains (lower response_text) keyword)
        risk_keywords in
  dict_get analysis (s "clause_type")
  = Some (match search ignorecase type_pattern response_text with
          | Some m => VStr (strip (group response_text m 1))
          | None => VStr (s "Unknown")
          end)
  /\ dict_get analysis (s "summary")
     = Some (match search ignorecase summary_pattern response_text with
             | Some m => VStr (strip (group response_text m 1))
             | None => VStr (s "Could not parse AI response properly")
             end)
  /\ dict_get analysis (s "risk_flag") = Some (VBool risky)
  /\ dict_get analysis (s "risk_reason")
     = Some (VStr (if risky then s "Potential risks mentioned in analysis"
                   else s ""))
  /\ dict_get analysis (s "confidence") = Some float_0_5.

(** A response in prose. *)
Definition prose_response : str :=
  s "Clause type: Payment" ++ [NL] ++ s "Summary: the client pays".

(** The response of the specification: an object between fences. *)
Definition example_object : str :=
  s "{" ++ quoted "clause_type" ++ s ":" ++ quoted "Payment" ++ s ","
    ++ quoted "summary" ++ s ":" ++ quoted "..." ++ s ","
    ++ quoted "risk_flag" ++ s ":false}".
Definition example_response : str :=
  fence_open ++ ([NL] ++ example_object ++ [NL]) ++ fence_close.

(** The client a clause is analysed with: the global one when there is
    one, else a new one. *)
Definition effective_client {client : Type} (api_key : option str)
    (genai_Client : str -> result client) (global_client : option client)
    : result client :=
  match global_client with
  | Some c => Ok c
  | None => get_gemini_client api_key genai_Client
  end.

(** The global client after a clause has been analysed. *)
Definition settled_client {client : Type} (api_key : option str)
    (genai_Client : str -> result client) (global_client : option client)
    : option client :=
  match effective_client api_key genai_Client global_client with
  | Ok c => Some c
  | Raise _ => global_client
  end.

(** The record of a clause, from what [analyze_single_clause] returned or
    raised. *)
Definition clause_record (clause_text : str) (analysis : result value)
    : clause_data :=
  match analysis <- analysis ;; analysis_data clause_text analysis with
  | Ok data => data
  | Raise _ => fallback_data clause_text
  end.

(** ** A template formatter to run the analyzer with

    [str.format] is a parameter of the analyzer. [FormatRef.format] is
    [template.format(clause_text=x)] for the templates whose only
    replacement field is [{clause_text}]: doubled braces stand for a brace,
    any other brace is refused. *)

Module FormatRef.

Fixpoint format_from (template x : str) (skip : nat) : result str :=
  match skip, template with
  | _, [] => Ok []
  | S k, _ :: template' => format_from template' x k
  | O, c :: template' =>
      if startswith template (s "{{")
      then r <- format_from template' x 1 ;; Ok ("{"%char :: r)
      else if startswith template (s "}}")
      then r <- format_from template' x 1 ;; Ok ("}"%char :: r)
      else if startswith template (s "{clause_text}")
      then r <- format_from template' x 12 ;; Ok (x ++ r)
      else if chr_eqb c "{"%char || chr_eqb c "}"%char
      then Raise (ValueError (s "unsupported format string"))
      else r <- format_from template' x 0 ;; Ok (c :: r)
  end.

Definition format (template x : str) : result str := format_from template x 0.

End FormatRef.

(** A service that answers every request with the example response, but
    fails on the second clause of a batch. *)
Definition second_fails (i : nat) (c : unit) (prompt : str)
    : result (option str) :=
  if i =? 1 then Raise (OtherError (s "ServerError"))
  else Ok (Some example_response).

(** A service that answers with the example response. *)
Definition always_answers (c : unit) (prompt : str) : result (option str) :=
  Ok (Some example_response).

(** A clause with an indemnity, and clauses without risk words. *)
Definition indemnity_clause : str :=
  s "The supplier shall indemnify the client against all claims.".
Definition plain_clause : str :=
  s "The client pays every invoice within thirty days.".

(** A text with the line endings of a classic Mac: three in a row. *)
Definition cr_lines : str := s "a" ++ [CR; CR; CR] ++ s "b".

(** ** processing/detect_clauses.py: boundaries and metadata *)

Module ClauseMetadata.

(** The pattern of [identify_clause_boundaries]: the six numbered markers
    as the alternatives of one group. *)
Definition boundary_pattern : regex :=
  line_start 1
    (Alts [Seqs [Plus digit; Chr "."%char; ws];
           Seqs [Plus digit; Chr "."%char; Plus digit; ws];
           Seqs [Chr "("%char; Plus digit; Chr ")"%char; ws];
           Seqs [upper_az; Chr "."%char; ws];
           Seqs [Lit (s "Article"); Plus ws; Plus digit];
           Seqs [Lit (s "Section"); Plus ws; Plus digit]]).

(** [for i, match in enumerate(matches): boundaries.append((start, end))] *)
Fixpoint boundaries_of_matches (text : str) (matches : list rmatch)
    : list (nat * nat) :=
  match matches with
  | [] => []
  | m :: rest_matches =>
      let start := m_start m in
      let end_ := match rest_matches with
                  | m' :: _ => m_start m'
                  | [] => length text
                  end in
      (start, end_) :: boundaries_of_matches text rest_matches
  end.

Definition identify_clause_boundaries (text : str) : list (nat * nat) :=
  let matches := finditer multiline boundary_pattern text in
  boundaries_of_matches text matches.

(** [x.split(sep)] for a separator of one character. *)
Fixpoint str_split (x : str) (sep : ascii) : list str :=
  match x with
  | [] => [[]]
  | c :: x' =>
      if chr_eqb c sep then [] :: str_split x' sep
      else match str_split x' sep with
           | l :: ls => (c :: l) :: ls
           | [] => [[c]]
           end
  end.

(** The pattern of a section number at the head of a clause: the group is
    [\d+\.\d*], [\(\d+\)] or [[A-Z]\.], between optional whitespace. *)
Definition section_number_pattern : regex :=
  Seqs [Bol; Star ws;
        Group 1 (Alts [Seqs [Plus digit; Chr "."%char; Star digit];
                       Seqs [Chr "("%char; Plus digit; Chr ")"%char];
                       Seqs [upper_az; Chr "."%char]]);
        Star ws].

(** [[.!?]] *)
Definition sentence_end : regex :=
  Class (fun c => chr_eqb c "."%char || chr_eqb c "!"%char
                  || chr_eqb c "?"%char).

(** [re.match(r, text)]: a match at the start of the text. *)
Definition re_match (fl : flags) (r : regex) (text : str) : option rmatch :=
  match_at fl r None 0 text.

(** The dictionary [extract_clause_metadata] returns. *)
Record metadata := {
  section_number : str;
  title : str;
  content : str
}.

Definition extract_clause_metadata (clause_text : str) : metadata :=
  (* Extract section number *)
  let section_number :=
    match re_match no_flags section_number_pattern clause_text with
    | Some number_match => strip (group clause_text number_match 1)
    | None => s ""
    end in
  (* Extract title (first line or first sentence) *)
  let lines := str_split clause_text NL in
  match lines with
  | [] =>
      {| section_number := section_number; title := s "";
         content := clause_text |}
  | line :: _ =>
      let first_line := strip line in
      (* Remove section number from title *)
      let first_line :=
        if truthy_list section_number
        then strip (replace first_line section_number (s ""))
        else first_line in
      (* Take first sentence as title if it's short enough *)
      let sentences := split no_flags sentence_end first_line in
      let shortened :=
        if 50 <? length first_line
        then firstn 50 first_line ++ s "..." else first_line in
      let title :=
        match sentences with
        | sentence :: _ =>
            if length sentence <? 100 then strip sentence else shortened
        | [] => shortened
        end in
      {| section_number := section_number; title := title;
         content := clause_text |}
  end.

End ClauseMetadata.

Import ClauseMetadata.

(** ** processing/extract_text.py *)

Module ExtractText.

(** The exceptions of the extraction: an [ImportError], which the code
    catches apart, or any other exception; [message] is [str(e)]. *)
Inductive error : Type :=
| ImportError (message : str)
| Error (message : str).

Inductive outcome (A : Type) : Type :=
| Done (a : A)
| Fails (e : error).

Arguments Done {A} a.
Arguments Fails {A} e.

Definition message_of (e : error) : str :=
  match e with
  | ImportError m => m
  | Error m => m
  end.

(** [text += page.get_text(); text += "\n"] over the pages. *)
Fixpoint fitz_text (pages : list str) : str :=
  match pages with
  | [] => s ""
  | page_text :: pages' => page_text ++ [NL] ++ fitz_text pages'
  end.

(** [if page_text: text += page_text + "\n"] over the pages, where
    [page.extract_text()] may be [None]. *)
Fixpoint pdfplumber_text (pages : list (option str)) : str :=
  match pages with
  | [] => s ""
  | Some page_text :: pages' =>
      if truthy_list page_text
      then page_text ++ [NL] ++ pdfplumber_text pages'
      else pdfplumber_text pages'
  | None :: pages' => pdfplumber_text pages'
  end.

(** [text += paragraph.text + "\n"] over the paragraphs. *)
Fixpoint paragraphs_text (paragraphs : list str) : str :=
  match paragraphs with
  | [] => s ""
  | paragraph :: ps => paragraph ++ [NL] ++ paragraphs_text ps
  end.

(** [text += cell.text + " "] over the cells of a row. *)
Fixpoint cells_text (cells : list str) : str :=
  match cells with
  | [] => s ""
  | cell :: cs => cell ++ s " " ++ cells_text cs
  end.

(** The rows of a table, each followed by a newline. *)
Fixpoint rows_text (rows : list (list str)) : str :=
  match rows with
  | [] => s ""
  | row :: rs => cells_text row ++ [NL] ++ rows_text rs
  end.

Fixpoint tables_text (tables : list (list (list str))) : str :=
  match tables with
  | [] => s ""
  | table :: ts => rows_text table ++ tables_text ts
  end.

Definition neither_pdf : str :=
  s "Neither PyMuPDF nor pdfplumber is available for PDF text extraction. Please install one of these libraries.".
Definition neither_docx : str :=
  s "Neither python-docx nor docx2txt is available for DOCX text extraction. Please install one of these libraries.".

Section Extractors.

(** What the libraries do with the file at a path: importing PyMuPDF and
    reading the text of each page; importing pdfplumber and reading each
    page; importing python-docx and reading the paragraphs and the tables;
    importing docx2txt and processing the file. *)
Variable fitz : str -> outcome (list str).
Variable pdfplumber : str -> outcome (list (option str)).
Variable docx : str -> outcome (list str * list (list (list str))).
Variable docx2txt : str -> outcome (option str).
(** [os.path.splitext] *)
Variable splitext : str -> str * str.

Definition extract_pdf_text (file_path : str) : outcome str :=
  match fitz file_path with
  | Done pages => Done (strip (fitz_text pages))
  | Fails (ImportError _) =>
      (* Fallback to pdfplumber if PyMuPDF is not available *)
      match pdfplumber file_path with
      | Done pages => Done (strip (pdfplumber_text pages))
      | Fails (ImportError _) => Fails (Error neither_pdf)
      | Fails e => Fails e
      end
  | Fails e =>
      Fails (Error (s "Failed to extract text from PDF: " ++ message_of e))
  end.

Definition extract_docx_text (file_path : str) : outcome str :=
  match docx file_path with
  | Done (paragraphs, tables) =>
      Done (strip (paragraphs_text paragraphs ++ tables_text tables))
  | Fails (ImportError _) =>
      (* Fallback to docx2txt if python-docx is not available *)
      match docx2txt file_path with
      | Done (Some text) =>
          Done (if truthy_list text then strip text else s "")
      | Done None => Done (s "")
      | Fails (ImportError _) => Fails (Error neither_docx)
      | Fails e => Fails e
      end
  | Fails e =>
      Fails (Error (s "Failed to extract text from DOCX: " ++ message_of e))
  end.

Definition extract_text_from_file (file_path : str) : outcome str :=
  let file_extension := lower (snd (splitext file_path)) in
  if str_eqb file_extension (s ".pdf") then extract_pdf_text file_path
  else if str_eqb file_extension (s ".docx") then extract_docx_text file_path
  else Fails (Error (s "Unsupported file format: " ++ file_extension)).

End Extractors.

(** [[line.strip() for line in lines]] and [[line for line in lines if
    line]] *)
Definition strip_lines (lines : list str) : list str := map strip lines.
Definition nonempty_lines (lines : list str) : list str :=
  filter (fun line => truthy_list line) lines.

Definition clean_extracted_text (text : str) : str :=
  if negb (truthy_list text) then s ""
  else
    (* Remove excessive whitespace *)
    let lines := strip_lines (str_split text NL) in
    let lines := nonempty_lines lines in
    (* Join lines with single newlines *)
    let cleaned_text := join [NL] lines in
    (* Remove multiple consecutive spaces *)
    let cleaned_text := sub no_flags spaces (s " ") cleaned_text in
    strip cleaned_text.

End ExtractText.

Import ExtractText.

(** ** app.py: from the click to the analysed clauses *)

Module App.

(** What [main] shows for a click on the button: one of its messages, or
    the results for the analysed clauses. *)
Inductive page : Type :=
| PleaseUpload
    (* "Please upload a file or paste contract text to analyze." *)
| NoTextExtracted
    (* "No text could be extracted from the file. ..." *)
| NoClausesDetected
    (* "No clauses could be detected in the contract text." *)
| ErrorOccurred (message : str)
    (* "An error occurred during analysis: ..." *)
| AnalysisResults (analyzed_clauses : list clause_data).

Section Main.

Variable client : Type.
Variable api_key : option str.
Variable genai_Client : str -> result client.
Variable read_prompt_file : result str.
Variable str_format : str -> str -> result str.
Variable json_loads : str -> result value.
Variable generate_content : nat -> client -> str -> result (option str).
(** [extract_text_from_file] on the temporary copy of the uploaded file. *)
Variable extract_uploaded : str -> outcome str.

(** [main] after the click, up to the end of the analysis: the uploaded
    file, if any, as the path of its temporary copy; the pasted text; the
    global client of the analyzer, passed in and out. *)
Definition main (uploaded_file : option str) (contract_text : str)
    (global_client : option client) : option client * page :=
  match uploaded_file with
  | None =>
      if negb (truthy_list (strip contract_text))
      then (global_client, PleaseUpload)
      else
        let extracted_text := strip contract_text in
        if negb (truthy_list (strip extracted_text))
        then (global_client, NoTextExtracted)
        else
          let clauses := detect_clauses extracted_text in
          if negb (truthy_list clauses)
          then (global_client, NoClausesDetected)
          else
            let (global_client, analyzed_clauses) :=
              analyze_clauses_with_gemini api_key genai_Client
                read_prompt_file str_format json_loads generate_content
                global_client clauses in
            (global_client, AnalysisResults analyzed_clauses)
  | Some tmp_file_path =>
      match extract_uploaded tmp_file_path with
      | Fails e =>
          (global_client,
           ErrorOccurred
             (s "An error occurred during analysis: " ++ message_of e))
      | Done extracted_text =>
          if negb (truthy_list (strip extracted_text))
          then (global_client, NoTextExtracted)
          else
            let clauses := detect_clauses extracted_text in
            if negb (truthy_list clauses)
            then (global_client, NoClausesDetected)
            else
              let (global_client, analyzed_clauses) :=
                analyze_clauses_with_gemini api_key genai_Client
                  read_prompt_file str_format json_loads generate_content
                  global_client clauses in
              (global_client, AnalysisResults analyzed_clauses)
      end
  end.

End Main.

End App.

Import App.

(** ** What the further properties speak of *)

(** [a] is a contiguous part of [b]. *)
Definition part_of (a b : str) : Prop := exists pre post, b = pre ++ a ++ post.

(** The offsets of [l] go up strictly, from [p] at least. *)
Fixpoint increasing_from (p : nat) (l : list nat) : Prop :=
  match l with
  | [] => True
  | a :: l' => p <= a /\ increasing_from (S a) l'
  end.

(** A category is hit: one of its keywords occurs in the lower-cased
    clause. *)
Definition hit (clause_lower : str) (p : risk_pattern) : bool :=
  any (fun keyword => contains clause_lower keyword) (keywords p).

(** The five keys of an analysis. *)
Definition analysis_keys : list str :=
  [s "clause_type"; s "summary"; s "risk_flag"; s "risk_reason";
   s "confidence"].

(** A key is none of the given ones. *)
Definition other_key (keys : list str) (k : str) : Prop :=
  forallb (fun k' => negb (str_eqb k' k)) keys = true.

(** The loop of a repetition in [run]: [run] on [Star r] is this loop with
    the length of the remaining text as fuel. *)
Definition star_loop (fl : flags) (r : regex) (k : mstate -> option mstate)
    : nat -> mstate -> option mstate :=
  fix iter (fuel : nat) (st0 : mstate) {struct fuel} : option mstate :=
    match fuel with
    | O => k st0
    | S fuel' =>
        match run fl r st0
                (fun st1 => if pos st0 <? pos st1 then iter fuel' st1
                            else None) with
        | Some m => Some m
        | None => k st0
        end
    end.

Definition is_space_chr (c : ascii) : bool := chr_eqb " "%char c.

(** The number of spaces a text starts with. *)
Fixpoint span_spaces (x : str) : nat :=
  match x with
  | c :: x' => if is_space_chr c then S (span_spaces x') else 0
  | [] => 0
  end.

(** A text with each run of spaces made one space; [in_run] says that a
    space has just been passed. *)
Fixpoint collapse_spaces (in_run : bool) (x : str) : str :=
  match x with
  | [] => []
  | c :: x' =>
      if is_space_chr c
      then if in_run then collapse_spaces true x'
           else c :: collapse_spaces true x'
      else c :: collapse_spaces false x'
  end.

Definition starts_with_chr (c : ascii) (x : str) : bool :=
  match x with
  | a :: _ => chr_eqb c a
  | [] => false
  end.

(** No two [c] in a row. *)
Fixpoint no_pair (c : ascii) (x : str) : Prop :=
  match x with
  | [] => True
  | a :: x' =>
      (chr_eqb c a = true -> starts_with_chr c x' = false) /\ no_pair c x'
  end.

(** The text of a boundary. *)
Definition boundary_text (text : str) (b : nat * nat) : str :=
  slice text (fst b) (snd b).

Unset Implicit Arguments.

(** * Properties *)

(** ** Strings *)

Lemma lstrip_length (x : str) : length (lstrip x) <= length x.
Proof.
  induction x as [|c x IH]; simpl; [lia|].
  destruct (isspace c); simpl; lia.
Qed.

(** What [lstrip] leaves does not start with whitespace. *)
Lemma lstrip_head (x : str) (c : ascii) (t : str) :
  lstrip x = c :: t -> isspace c = false.
Proof.
  induction x as [|d x IH]; simpl; [discriminate|].
  destruct (isspace d) eqn:E; [exact IH|].
  intros H; injection H as <- _; exact E.
Qed.

Lemma lstrip_fixed (x : str) :
  match x with [] => True | c :: _ => isspace c = false end -> lstrip x = x.
Proof.
  destruct x as [|c x]; simpl; [reflexivity|].
  intros ->; reflexivity.
Qed.

Lemma lstrip_idem (x : str) : lstrip (lstrip x) = lstrip x.
Proof.
  apply lstrip_fixed.
  destruct (lstrip x) as [|c t] eqn:E; [exact I|].
  exact (lstrip_head x c t E).
Qed.

(** [lstrip] drops a prefix of whitespace. *)
Lemma lstrip_suffix (x : str) :
  exists pre, x = pre ++ lstrip x /\ Forall (fun c => isspace c = true) pre.
Proof.
  induction x as [|c x (pre & E & F)]; simpl.
  - exists []; split; [reflexivity|constructor].
  - destruct (isspace c) eqn:S.
    + exists (c :: pre); split; [simpl; congruence|constructor; assumption].
    + exists []; split; [reflexivity|constructor].
Qed.

Lemma lstrip_blank (x : str) : blank x -> lstrip x = [].
Proof.
  induction 1 as [|c x S _ IH]; simpl; [reflexivity|].
  rewrite S; exact IH.
Qed.


Lemma blank_rev (x : str) : blank x -> blank (rev x).
Proof. apply Forall_rev. Qed.

Lemma strip_blank (x : str) : blank x -> strip x = [].
Proof.
  intros B. unfold strip, rstrip.
  rewrite (lstrip_blank _ (blank_rev _ B)). reflexivity.
Qed.


(** What [rstrip] leaves does not end with whitespace. *)
Lemma rstrip_fixed_rev (x : str) : lstrip (rev (rstrip x)) = rev (rstrip x).
Proof.
  unfold rstrip. rewrite rev_involutive. apply lstrip_idem.
Qed.

(** Nor does a text cut from its front. *)
Lemma lstrip_keeps_end (y : str) :
  lstrip (rev y) = rev y -> lstrip (rev (lstrip y)) = rev (lstrip y).
Proof.
  intros Hy. apply lstrip_fixed.
  destruct (rev (lstrip y)) as [|c t] eqn:E; [exact I|].
  destruct (lstrip_suffix y) as (pre & Ey & _).
  assert (R : rev y = c :: t ++ rev pre).
  { rewrite Ey at 1. rewrite rev_app_distr, E. reflexivity. }
  rewrite R in Hy. simpl in Hy.
  destruct (isspace c) eqn:S; [|reflexivity].
  pose proof (lstrip_length (t ++ rev pre)) as L.
  rewrite Hy in L. simpl in L. lia.
Qed.

Lemma strip_idem (x : str) : strip (strip x) = strip x.
Proof.
  unfold strip at 1. unfold rstrip at 1.
  unfold strip.
  rewrite (lstrip_keeps_end (rstrip x) (rstrip_fixed_rev x)).
  rewrite rev_involutive. apply lstrip_idem.
Qed.

Lemma lstrip_incl (x : str) (c : ascii) : In c (lstrip x) -> In c x.
Proof.
  destruct (lstrip_suffix x) as (pre & E & _).
  intros H. rewrite E. apply in_or_app. right; exact H.
Qed.

Lemma strip_incl (x : str) (c : ascii) : In c (strip x) -> In c x.
Proof.
  unfold strip, rstrip. intros H.
  apply lstrip_incl, in_rev, lstrip_incl, in_rev in H. exact H.
Qed.

(** ** The segmenter *)


Lemma truthy_list_true {A} (l : list A) : truthy_list l = true -> l <> [].
Proof. destruct l; [discriminate|intros _; discriminate]. Qed.

(** Every clause the filter keeps is longer than 50 once stripped. *)
Lemma filter_short_long (clauses : list str) :
  Forall (fun c => 50 < length (strip c)) (filter_short clauses).
Proof.
  induction clauses as [|c cs IH]; simpl; [constructor|].
  destruct (50 <? length (strip c)) eqn:E; [|exact IH].
  constructor; [|exact IH].
  rewrite strip_idem. apply Nat.ltb_lt; exact E.
Qed.

(** The segmenter is its guard, then the post-filter on the candidates of
    whichever strategy was taken. *)
Lemma detect_clauses_shape (text : str) :
  detect_clauses text = []
  \/ exists clauses,
       detect_clauses text
       = post_filter (clean_text_for_clause_detection text) clauses.
Proof.
  unfold detect_clauses.
  destruct (negb (truthy_list text) || negb (truthy_list (strip text)));
    [left; reflexivity|right].
  cbv zeta. eexists. unfold post_filter. reflexivity.
Qed.

Lemma post_filter_nonempty (cleaned_text : str) (clauses : list str) :
  post_filter cleaned_text clauses <> [].
Proof.
  unfold post_filter.
  destruct (truthy_list (filter_short clauses)) eqn:E.
  - apply truthy_list_true; exact E.
  - discriminate.
Qed.

Lemma guard_passes (text : str) :
  strip text <> [] ->
  negb (truthy_list text) || negb (truthy_list (strip text)) = false.
Proof.
  intros H. destruct text as [|c t]; [exfalso; apply H; reflexivity|].
  destruct (strip (c :: t)); [exfalso; apply H; reflexivity|reflexivity].
Qed.

Lemma guard_stops (text : str) :
  strip text = [] ->
  negb (truthy_list text) || negb (truthy_list (strip text)) = true.
Proof. intros ->. simpl. apply orb_true_r. Qed.

(** C1. As stated, the claim fails: a text of one space is not empty, and
    the segmenter returns no clause for it. *)
Lemma detect_clauses_single_space_empty :
  ~ (forall text : str, text <> [] -> detect_clauses text <> []).
Proof.
  intros H. apply (H (s " ")); [discriminate|reflexivity].
Qed.

(** C1, amended. For every input text that has a character other than
    whitespace ([text.strip()] is not empty), the segmenter returns at least
    one clause. The model is a total function: there is no input on which it
    fails to return. *)
Theorem detect_clauses_nonempty (text : str) :
  strip text <> [] -> detect_clauses text <> [].
Proof.
  intros H. unfold detect_clauses. rewrite (guard_passes text H). cbv zeta.
  apply post_filter_nonempty.
Qed.

Lemma detect_clauses_nonempty_witness :
  strip example_contract <> [] /\ detect_clauses example_contract <> [].
Proof.
  assert (H : strip example_contract <> []) by (vm_compute; discriminate).
  split; [exact H|exact (detect_clauses_nonempty example_contract H)].
Defined.

(** C7. For every input text, every clause the segmenter returns has a
    stripped length above 50, or the result is the single clause that is the
    whole normalized text. *)
Theorem detect_clauses_long_or_whole (text : str) :
  Forall (fun c => 50 < length (strip c)) (detect_clauses text)
  \/ detect_clauses text = [clean_text_for_clause_detection text].
Proof.
  destruct (detect_clauses_shape text) as [E|(clauses & E)]; rewrite E.
  - left; constructor.
  - unfold post_filter.
    destruct (truthy_list (filter_short clauses)).
    + left; apply filter_short_long.
    + right; reflexivity.
Qed.

(** C10. For every input text that is empty or consists only of whitespace,
    the segmenter returns the empty list: the guard answers before the text
    is normalized and before any strategy or fallback is tried. *)
Theorem detect_clauses_blank (text : str) :
  blank text -> detect_clauses text = [].
Proof.
  intros B. unfold detect_clauses.
  rewrite (guard_stops text (strip_blank text B)). reflexivity.
Qed.

Lemma detect_clauses_blank_witness :
  blank (s " " ++ [NL; CR]) /\ detect_clauses (s " " ++ [NL; CR]) = [].
Proof.
  assert (B : blank (s " " ++ [NL; CR])) by (repeat constructor).
  split; [exact B|exact (detect_clauses_blank _ B)].
Defined.

(** The numbered strategy returns the split at the matches of the first
    pattern that yields at least two. *)
Lemma numbered_loop_first (before : list regex) (pattern : regex)
    (others : list regex) (text : str) :
  forallb (fun q => negb (qualifies q text)) before = true ->
  qualifies pattern text = true ->
  numbered_loop (before ++ pattern :: others) text
  = clauses_of_matches text (finditer multiline pattern text).
Proof.
  unfold qualifies. intros Hb Hp.
  induction before as [|q before IH]; simpl in *.
  - rewrite Hp. reflexivity.
  - apply andb_prop in Hb. destruct Hb as [Hq Hb].
    apply negb_true_iff in Hq. rewrite Hq. exact (IH Hb).
Qed.

Lemma length_gt_truthy {A} (l : list A) (n : nat) :
  n < length l -> truthy_list l = true.
Proof. destruct l; simpl; [lia|reflexivity]. Qed.

(** C3. As stated, the claim fails: on three short numbered sections the
    first pattern yields three matches, and the result is the whole text as
    one clause, not the three sections of the numbered split. *)
Lemma short_sections_not_the_numbered_split :
  qualifies (nth 0 patterns Empty)
    (clean_text_for_clause_detection short_sections) = true
  /\ detect_clauses short_sections
     <> detect_numbered_clauses
          (clean_text_for_clause_detection short_sections).
Proof.
  split; [vm_compute; reflexivity|vm_compute; discriminate].
Qed.

(** C3, amended. For every input text that is not blank: the numbered
    strategy returns the text cut at each match start of the first pattern
    with at least two matches; when it returns more than two candidates, the
    result of the segmenter is the post-filter of these candidates (those of
    stripped length above 50, else the whole normalized text), and neither
    the header nor the paragraph strategy contributes; when it returns fewer
    than two, the header strategy is taken if it returns at least two
    candidates, and the paragraph strategy otherwise. *)
Theorem numbered_then_header_then_paragraph (text : str) :
  strip text <> [] ->
  let cleaned_text := clean_text_for_clause_detection text in
  let numbered := detect_numbered_clauses cleaned_text in
  let header := detect_header_based_clauses cleaned_text in
  let paragraph := detect_paragraph_based_clauses cleaned_text in
  (forall before pattern others,
      patterns = before ++ pattern :: others ->
      forallb (fun q => negb (qualifies q cleaned_text)) before = true ->
      qualifies pattern cleaned_text = true ->
      numbered
      = clauses_of_matches cleaned_text
          (finditer multiline pattern cleaned_text))
  /\ (2 < length numbered ->
      detect_clauses text = post_filter cleaned_text numbered)
  /\ (length numbered < 2 -> 1 < length header ->
      detect_clauses text = post_filter cleaned_text header)
  /\ (length numbered < 2 -> length header <= 1 ->
      detect_clauses text = post_filter cleaned_text paragraph).
Proof.
  intros H cleaned_text numbered header paragraph.
  split; [|split; [|split]].
  - intros before pattern others E Hb Hp.
    unfold numbered, detect_numbered_clauses. rewrite E.
    apply numbered_loop_first; assumption.
  - intros L. unfold detect_clauses. rewrite (guard_passes text H). cbv zeta.
    fold cleaned_text. fold numbered.
    pose proof (length_gt_truthy numbered 2 L) as T.
    apply Nat.ltb_lt in L. rewrite L.
    repeat (rewrite T; simpl). reflexivity.
  - intros Ln Lh. unfold detect_clauses. rewrite (guard_passes text H).
    cbv zeta. fold cleaned_text. fold numbered. fold header.
    assert (N : (2 <? length numbered) = false) by (apply Nat.ltb_ge; lia).
    rewrite N, andb_false_r. simpl.
    pose proof (length_gt_truthy header 1 Lh) as T.
    apply Nat.ltb_lt in Lh. rewrite Lh.
    repeat (rewrite T; simpl). reflexivity.
  - intros Ln Lh. unfold detect_clauses. rewrite (guard_passes text H).
    cbv zeta. fold cleaned_text. fold numbered. fold header.
    assert (N : (2 <? length numbered) = false) by (apply Nat.ltb_ge; lia).
    rewrite N, andb_false_r. simpl.
    assert (M : (1 <? length header) = false) by (apply Nat.ltb_ge; lia).
    rewrite M, andb_false_r. simpl.
    reflexivity.
Qed.

Lemma numbered_then_header_then_paragraph_witness :
  strip long_sections <> []
  /\ 2 < length (detect_numbered_clauses
                   (clean_text_for_clause_detection long_sections))
  /\ detect_clauses long_sections = [section_1; section_2; section_3].
Proof.
  assert (H : strip long_sections <> []) by (vm_compute; discriminate).
  assert (L : 2 < length (detect_numbered_clauses
                            (clean_text_for_clause_detection long_sections)))
    by (vm_compute; apply le_n).
  split; [exact H|split; [exact L|]].
  destruct (numbered_then_header_then_paragraph long_sections H)
    as (_ & N & _).
  rewrite (N L). vm_compute. reflexivity.
Defined.

(** C4. As stated, the claim fails: on the example contract the segmenter
    does not return two clauses. *)
Lemma example_contract_not_two_clauses :
  ~ (exists c1 c2,
        detect_clauses example_contract = [c1; c2]
        /\ startswith c1 (s "1.") = true
        /\ startswith c2 (s "2.") = true
        /\ contains (detect_keyword_based_risks c2)
             broad_termination_description = true).
Proof.
  intros (c1 & c2 & E & _).
  vm_compute in E. discriminate E.
Qed.

(** C4, amended. On the example contract the numbered strategy splits the
    normalized text into two candidates, the first starting with "1." and
    the second with "2."; the first is 39 characters long, which the
    post-filter does not keep, and the segmenter returns a single clause,
    which ends with the second candidate; the keyword matcher applied to the
    returned clause, as to the second candidate, returns the description of
    broad termination rights. *)
Theorem example_contract_segmented :
  detect_numbered_clauses (clean_text_for_clause_detection example_contract)
  = [clause_1; clause_2]
  /\ startswith clause_1 (s "1.") = true
  /\ startswith clause_2 (s "2.") = true
  /\ length (strip clause_1) = 39
  /\ filter_short [clause_1] = []
  /\ contains (lower clause_2) (s "terminate at will") = true
  /\ detect_keyword_based_risks clause_2 = broad_termination_description
  /\ exists clause,
       detect_clauses example_contract = [clause]
       /\ endswith clause clause_2 = true
       /\ detect_keyword_based_risks clause = broad_termination_description.
Proof.
  repeat (split; [vm_compute; reflexivity|]).
  eexists. split; [vm_compute; reflexivity|].
  split; vm_compute; reflexivity.
Qed.

Lemma startswith_nil (x : str) : startswith x [] = true.
Proof. destruct x; reflexivity. Qed.

(** The normalizer leaves no carriage return. *)
Lemma replace_cr_no_cr (x : str) : ~ In CR (replace x [CR] [NL]).
Proof.
  unfold replace. induction x as [|c x IH]; simpl; [tauto|].
  rewrite startswith_nil.
  destruct (chr_eqb CR c) eqn:E; unfold chr_eqb in E; simpl.
  - intros D. destruct D as [D|I]; [discriminate D|exact (IH I)].
  - apply Ascii.eqb_neq in E.
    intros D. destruct D as [D|I]; [apply E; symmetry; exact D|exact (IH I)].
Qed.

Lemma clean_text_no_carriage_return (text : str) :
  ~ In CR (clean_text_for_clause_detection text).
Proof.
  unfold clean_text_for_clause_detection. cbv zeta.
  intros H. apply strip_incl in H. exact (replace_cr_no_cr _ H).
Qed.

(** C9. The normalizer collapses the blank lines before it turns carriage
    returns into newlines: three carriage returns in a row come out as three
    newlines in a row. *)
Theorem clean_text_cr_lines_three_newlines :
  clean_text_for_clause_detection cr_lines = s "a" ++ [NL; NL; NL] ++ s "b".
Proof. vm_compute. reflexivity. Qed.

(** ** Dictionaries *)

Lemma chr_eqb_refl (c : ascii) : chr_eqb c c = true.
Proof. unfold chr_eqb. apply Ascii.eqb_refl. Qed.

Lemma str_eqb_eq (a b : str) : str_eqb a b = true <-> a = b.
Proof.
  revert b. induction a as [|x a IH]; intros [|y b]; simpl;
    try (split; [discriminate|discriminate]); [tauto|].
  rewrite andb_true_iff, IH. unfold chr_eqb. rewrite Ascii.eqb_eq.
  split; [intros [-> ->]; reflexivity|intros E; injection E; auto].
Qed.

Lemma str_eqb_refl (a : str) : str_eqb a a = true.
Proof. apply str_eqb_eq. reflexivity. Qed.

Lemma dict_get_set_same (d : dict) (k : str) (v : value) :
  dict_get (dict_set d k v) k = Some v.
Proof.
  induction d as [|[k0 v0] d IH]; simpl.
  - rewrite str_eqb_refl. reflexivity.
  - destruct (str_eqb k0 k) eqn:E; simpl; rewrite E; [reflexivity|exact IH].
Qed.

Lemma dict_get_set_other (d : dict) (k k' : str) (v : value) :
  str_eqb k k' = false ->
  dict_get (dict_set d k v) k' = dict_get d k'.
Proof.
  intros N. induction d as [|[k0 v0] d IH]; simpl.
  - rewrite N. reflexivity.
  - destruct (str_eqb k0 k) eqn:E; simpl.
    + apply str_eqb_eq in E. subst k0. rewrite N. reflexivity.
    + rewrite IH. reflexivity.
Qed.

Lemma dict_get_backfill_same (d : dict) (field : str) :
  dict_get (backfill d field) field
  = Some (dict_get_default d field (get_default_value field)).
Proof.
  unfold backfill, dict_in, dict_get_default.
  destruct (dict_get d field) eqn:E; [exact E|apply dict_get_set_same].
Qed.

Lemma dict_get_backfill_other (d : dict) (field k : str) :
  str_eqb field k = false ->
  dict_get (backfill d field) k = dict_get d k.
Proof.
  intros N. unfold backfill.
  destruct (dict_in field d); [reflexivity|apply dict_get_set_other; exact N].
Qed.

Lemma dict_in_get (d : dict) (k : str) (v : value) :
  dict_get d k = Some v -> dict_in k d = true.
Proof. unfold dict_in. intros ->. reflexivity. Qed.

(** ** The response parser *)

Lemma validate_required_dict (fields : list str) (d : dict) :
  validate_required fields (VDict d)
  = Ok (VDict (fold_left backfill fields d)).
Proof.
  revert d. induction fields as [|field fields IH]; intros d; simpl;
    [reflexivity|].
  unfold backfill at 2. destruct (dict_in field d); simpl; apply IH.
Qed.

(** On a decoded dictionary the parser returns [parsed_object] of it. *)
Lemma parse_object (json_loads : str -> result value) (response_text : str)
    (d : dict) :
  json_loads (clean_response response_text) = Ok (VDict d) ->
  parse_gemini_response json_loads response_text
  = Ok (VDict (parsed_object d)).
Proof.
  intros E. unfold parse_gemini_response. cbv zeta. rewrite E.
  rewrite validate_required_dict. unfold parsed_object.
  set (d1 := fold_left backfill required_fields d).
  simpl.
  destruct (truthy (dict_get_default d1 (s "risk_flag") (VBool false)));
    simpl.
  - destruct (truthy (dict_get_default d1 (s "risk_reason") VNone)); simpl.
    + destruct (dict_in (s "confidence") d1); reflexivity.
    + destruct (dict_in (s "confidence")
                  (dict_set d1 (s "risk_reason") (VStr placeholder_reason)));
        reflexivity.
  - destruct (dict_in (s "confidence") d1); reflexivity.
Qed.

(** On a response that does not decode the parser returns the fallback. *)
Lemma parse_not_json (json_loads : str -> result value) (response_text : str) :
  json_loads (clean_response response_text) = Raise JSONDecodeError ->
  parse_gemini_response json_loads response_text
  = Ok (parse_non_json_response response_text).
Proof.
  intros E. unfold parse_gemini_response. cbv zeta. rewrite E. reflexivity.
Qed.

(** The fields of [parsed_object]. *)
Lemma parsed_object_fields (d : dict) : object_fields d (parsed_object d).
Proof.
  unfold object_fields.
  set (flag := dict_get_default d (s "risk_flag") (VBool false)).
  set (d1 := fold_left backfill required_fields d).
  assert (G1 : forall k,
             str_eqb (s "clause_type") k = false ->
             str_eqb (s "summary") k = false ->
             str_eqb (s "risk_flag") k = false ->
             dict_get d1 k = dict_get d k).
  { intros k N1 N2 N3. unfold d1. simpl.
    rewrite (dict_get_backfill_other _ _ _ N3).
    rewrite (dict_get_backfill_other _ _ _ N2).
    apply (dict_get_backfill_other _ _ _ N1). }
  assert (F1 : dict_get d1 (s "clause_type")
               = Some (dict_get_default d (s "clause_type")
                         (VStr (s "Unknown")))).
  { unfold d1. simpl.
    rewrite dict_get_backfill_other by reflexivity.
    rewrite dict_get_backfill_other by reflexivity.
    apply dict_get_backfill_same. }
  assert (F2 : dict_get d1 (s "summary")
               = Some (dict_get_default d (s "summary")
                         (VStr (s "No summary available")))).
  { unfold d1. simpl.
    rewrite dict_get_backfill_other by reflexivity.
    rewrite dict_get_backfill_same. unfold dict_get_default.
    rewrite dict_get_backfill_other by reflexivity. reflexivity. }
  assert (F3 : dict_get d1 (s "risk_flag") = Some flag).
  { unfold d1. simpl.
    rewrite dict_get_backfill_same. unfold flag, dict_get_default.
    rewrite dict_get_backfill_other by reflexivity.
    rewrite dict_get_backfill_other by reflexivity. reflexivity. }
  assert (F4 : dict_get d1 (s "risk_reason") = dict_get d (s "risk_reason"))
    by (apply G1; reflexivity).
  assert (F5 : dict_get d1 (s "confidence") = dict_get d (s "confidence"))
    by (apply G1; reflexivity).
  assert (T1 : dict_get_default d1 (s "risk_flag") (VBool false) = flag)
    by (unfold dict_get_default; rewrite F3; reflexivity).
  assert (T2 : dict_get_default d1 (s "risk_reason") VNone
               = dict_get_default d (s "risk_reason") VNone)
    by (unfold dict_get_default; rewrite F4; reflexivity).
  unfold parsed_object. fold d1. cbv zeta. rewrite T1, T2.
  set (c := truthy flag
            && negb (truthy (dict_get_default d (s "risk_reason") VNone))).
  set (d2 := if c then dict_set d1 (s "risk_reason") (VStr placeholder_reason)
             else d1).
  assert (G2 : forall k, str_eqb (s "risk_reason") k = false ->
                         dict_get d2 k = dict_get d1 k).
  { intros k N. unfold d2. destruct c; [|reflexivity].
    apply dict_get_set_other; exact N. }
  assert (R : dict_get d2 (s "risk_reason")
              = if c then Some (VStr placeholder_reason)
                else dict_get d (s "risk_reason")).
  { unfold d2. destruct c; [apply dict_get_set_same|exact F4]. }
  assert (C : dict_get d2 (s "confidence") = dict_get d (s "confidence"))
    by (rewrite G2 by reflexivity; exact F5).
  unfold dict_in. rewrite C.
  destruct (dict_get d (s "confidence")) as [cv|] eqn:Ec; cbv beta iota.
  - repeat split.
    + rewrite G2 by reflexivity. exact F1.
    + rewrite G2 by reflexivity. exact F2.
    + rewrite G2 by reflexivity. exact F3.
    + rewrite C. unfold dict_get_default. rewrite Ec. reflexivity.
    + exact R.
  - repeat split.
    + rewrite dict_get_set_other, G2 by reflexivity. exact F1.
    + rewrite dict_get_set_other, G2 by reflexivity. exact F2.
    + rewrite dict_get_set_other, G2 by reflexivity. exact F3.
    + rewrite dict_get_set_same. unfold dict_get_default. rewrite Ec.
      reflexivity.
    + rewrite dict_get_set_other by reflexivity. exact R.
Qed.

Lemma parse_non_json_fields (response_text : str) :
  exists analysis,
    parse_non_json_response response_text = VDict analysis
    /\ fallback_fields response_text analysis.
Proof.
  unfold parse_non_json_response, fallback_fields. cbv zeta.
  destruct (search ignorecase type_pattern response_text);
    destruct (search ignorecase summary_pattern response_text);
    destruct (any (fun keyword => contains (lower response_text) keyword)
                risk_keywords);
    (eexists; split; [reflexivity|repeat split; reflexivity]).
Qed.

(** On an object that is not a dictionary the validation loop raises, or
    leaves the object as it is. *)
Lemma validate_required_other (fields : list str) (v : value) :
  (forall d, v <> VDict d) ->
  validate_required fields v = Ok v
  \/ exists e, validate_required fields v = Raise e.
Proof.
  intros N. induction fields as [|field fields IH]; simpl; [left; reflexivity|].
  destruct v as [|b|z|m e| |n|x|l|d0]; simpl;
    try (right; eexists; reflexivity).
  - destruct (contains x field); simpl;
      [exact IH|right; eexists; reflexivity].
  - destruct (existsb (fun x => eq_str x field) l); simpl;
      [exact IH|right; eexists; reflexivity].
  - exfalso. exact (N d0 eq_refl).
Qed.

(** A response that decodes to something other than a dictionary makes the
    parser raise. *)
Lemma parse_non_object_raises (json_loads : str -> result value)
    (response_text : str) (v : value) :
  json_loads (clean_response response_text) = Ok v ->
  (forall d, v <> VDict d) ->
  exists e, parse_gemini_response json_loads response_text = Raise e.
Proof.
  intros E N. unfold parse_gemini_response. cbv zeta. rewrite E.
  destruct (validate_required_other required_fields v N) as [V|(e & V)];
    rewrite V; simpl.
  - destruct v as [|b|z|m e0| |n|x|l|d0]; simpl; try (eexists; reflexivity).
    exfalso. exact (N d0 eq_refl).
  - exists e. reflexivity.
Qed.

(** What the parser returns is a dictionary. *)
Lemma parse_returns_dict (json_loads : str -> result value)
    (response_text : str) (analysis : value) :
  parse_gemini_response json_loads response_text = Ok analysis ->
  exists d, analysis = VDict d.
Proof.
  intros P.
  destruct (json_loads (clean_response response_text)) as [v|e] eqn:E.
  - destruct v as [|b|z|m e0| |n|x|l|d];
      try (destruct (parse_non_object_raises json_loads response_text _ E)
             as (e & R); [intros d0; discriminate|congruence]).
    rewrite (parse_object json_loads response_text d E) in P.
    injection P as <-. eexists; reflexivity.
  - unfold parse_gemini_response in P. cbv zeta in P. rewrite E in P.
    destruct e; try discriminate P.
    destruct (parse_non_json_fields response_text) as (a & Ea & _).
    rewrite Ea in P. injection P as <-. eexists; reflexivity.
Qed.

(** C5. As stated, the claim fails: for the empty object the parser returns
    a dictionary of four fields, without a risk reason. *)
Lemma parse_empty_object_no_risk_reason :
  exists analysis,
    parse_gemini_response JsonRef.loads (s "{}") = Ok (VDict analysis)
    /\ dict_in (s "risk_reason") analysis = false.
Proof. eexists. split; vm_compute; reflexivity. Qed.

(** C5, amended. For every input string that does not decode as JSON or
    that decodes to a JSON object, the parser returns a dictionary in which
    clause_type, summary, risk_flag and confidence are present, and
    risk_reason is present whenever risk_flag is set: the fields come from
    the decoded object where it has them, with the defaults "Unknown",
    "No summary available", false and 0.7 (and a placeholder reason when the
    flag is set without one); for a text that does not decode they come from
    what the two patterns recover and from the risk words, with the defaults
    "Unknown", "Could not parse AI response properly", false, "" and 0.5. *)
Theorem parse_gemini_response_populated (json_loads : str -> result value)
    (response_text : str) :
  json_loads (clean_response response_text) = Raise JSONDecodeError
  \/ (exists d, json_loads (clean_response response_text) = Ok (VDict d)) ->
  exists analysis,
    parse_gemini_response json_loads response_text = Ok (VDict analysis)
    /\ dict_in (s "clause_type") analysis = true
    /\ dict_in (s "summary") analysis = true
    /\ dict_in (s "risk_flag") analysis = true
    /\ dict_in (s "confidence") analysis = true
    /\ (truthy (dict_get_default analysis (s "risk_flag") (VBool false))
        = true ->
        dict_in (s "risk_reason") analysis = true)
    /\ (forall d,
           json_loads (clean_response response_text) = Ok (VDict d) ->
           object_fields d analysis)
    /\ (json_loads (clean_response response_text) = Raise JSONDecodeError ->
        fallback_fields response_text analysis
        /\ dict_in (s "risk_reason") analysis = true).
Proof.
  intros [E|(d & E)].
  - destruct (parse_non_json_fields response_text) as (a & Ea & F).
    exists a. rewrite (parse_not_json json_loads response_text E), Ea.
    pose proof F as (F1 & F2 & F3 & F4 & F5).
    split; [reflexivity|].
    split; [exact (dict_in_get _ _ _ F1)|].
    split; [exact (dict_in_get _ _ _ F2)|].
    split; [exact (dict_in_get _ _ _ F3)|].
    split; [exact (dict_in_get _ _ _ F5)|].
    split; [intros _; exact (dict_in_get _ _ _ F4)|].
    split; [intros d' E'; congruence|].
    intros _. split; [exact F|exact (dict_in_get _ _ _ F4)].
  - exists (parsed_object d).
    rewrite (parse_object json_loads response_text d E).
    pose proof (parsed_object_fields d) as F.
    pose proof F as (F1 & F2 & F3 & F4 & F5).
    split; [reflexivity|].
    split; [exact (dict_in_get _ _ _ F1)|].
    split; [exact (dict_in_get _ _ _ F2)|].
    split; [exact (dict_in_get _ _ _ F3)|].
    split; [exact (dict_in_get _ _ _ F4)|].
    split.
    + unfold dict_get_default at 1. rewrite F3. intros T.
      unfold dict_in. rewrite F5. rewrite T. simpl.
      unfold dict_get_default.
      destruct (dict_get d (s "risk_reason")) as [r|]; simpl;
        [destruct (truthy r); reflexivity|reflexivity].
    + split; [|intros E'; congruence].
      intros d' E'. rewrite E in E'. injection E' as <-. exact F.
Qed.

Lemma parse_gemini_response_populated_witness :
  exists analysis,
    parse_gemini_response JsonRef.loads prose_response = Ok (VDict analysis)
    /\ dict_in (s "clause_type") analysis = true
    /\ dict_in (s "summary") analysis = true.
Proof.
  assert (H : JsonRef.loads (clean_response prose_response)
              = Raise JSONDecodeError) by (vm_compute; reflexivity).
  destruct (parse_gemini_response_populated JsonRef.loads prose_response
              (or_introl H)) as (a & P & I1 & I2 & _).
  exists a. split; [exact P|split; [exact I1|exact I2]].
Defined.

(** *** A response between fences *)

Lemma lstrip_cons (c : ascii) (t : str) :
  isspace c = false -> lstrip (c :: t) = c :: t.
Proof. intros E. simpl. rewrite E. reflexivity. Qed.

Lemma strip_fixed (x : str) :
  lstrip x = x -> lstrip (rev x) = rev x -> strip x = x.
Proof.
  intros L R. unfold strip, rstrip. rewrite R, rev_involutive. exact L.
Qed.

Lemma startswith_app (p y : str) : startswith (p ++ y) p = true.
Proof.
  induction p as [|c p IH]; simpl; [apply startswith_nil|].
  rewrite chr_eqb_refl. exact IH.
Qed.

Lemma endswith_app (y p : str) : endswith (y ++ p) p = true.
Proof. unfold endswith. rewrite rev_app_distr. apply startswith_app. Qed.

Lemma firstn_length_app (a b : str) : firstn (length a) (a ++ b) = a.
Proof. induction a as [|c a IH]; simpl; [reflexivity|rewrite IH; reflexivity]. Qed.

(** The fences come off, and what is between them is stripped. *)
Lemma clean_response_fenced (body : str) :
  clean_response (fence_open ++ body ++ fence_close) = strip body.
Proof.
  unfold clean_response. cbv zeta.
  assert (S : strip (fence_open ++ body ++ fence_close)
              = fence_open ++ body ++ fence_close).
  { apply strip_fixed.
    - apply (lstrip_cons "`"%char). reflexivity.
    - rewrite !rev_app_distr. apply (lstrip_cons "`"%char). reflexivity. }
  rewrite S, startswith_app.
  change (skipn 7 (fence_open ++ body ++ fence_close))
    with (body ++ fence_close).
  rewrite endswith_app.
  rewrite length_app.
  change (length fence_close) with 3.
  replace (length body + 3 - 3) with (length body) by lia.
  rewrite firstn_length_app. reflexivity.
Qed.

(** C8. As stated, the claim fails: for the fenced example the dictionary
    the parser returns has no risk reason, so none that is the empty
    string. *)
Lemma example_response_risk_reason_not_empty_string :
  ~ (exists analysis,
        parse_gemini_response JsonRef.loads example_response
        = Ok (VDict analysis)
        /\ dict_get analysis (s "risk_reason") = Some (VStr (s ""))).
Proof.
  intros (a & P & G). vm_compute in P. injection P as <-.
  vm_compute in G. discriminate G.
Qed.

(** C8, amended. When the text between the fences decodes to an object, the
    parser takes the fences off and decodes what is between them, stripped;
    in the dictionary it returns, clause_type, summary and risk_flag are
    those of the object or the defaults "Unknown", "No summary available"
    and false, an absent confidence is 0.7, and - when risk_flag is not set -
    the risk reason is left as the object has it, without a placeholder: for
    an object without one, as in the example, the key stays absent, and the
    analyzer's [analysis.get('risk_reason', '')] reads the empty string. *)
Theorem parse_gemini_response_fenced (json_loads : str -> result value)
    (body : str) (d : dict) :
  json_loads (strip body) = Ok (VDict d) ->
  let response_text := fence_open ++ body ++ fence_close in
  let flag := dict_get_default d (s "risk_flag") (VBool false) in
  clean_response response_text = strip body
  /\ exists analysis,
       parse_gemini_response json_loads response_text = Ok (VDict analysis)
       /\ object_fields d analysis
       /\ (truthy flag = false ->
           dict_get analysis (s "risk_reason") = dict_get d (s "risk_reason"))
       /\ (truthy flag = false -> dict_get d (s "risk_reason") = None ->
           dict_in (s "risk_reason") analysis = false
           /\ dict_get_default analysis (s "risk_reason") (VStr (s ""))
              = VStr (s "")).
Proof.
  intros E response_text flag.
  pose proof (clean_response_fenced body) as C. fold response_text in C.
  split; [exact C|].
  exists (parsed_object d).
  rewrite <- C in E.
  rewrite (parse_object json_loads response_text d E).
  pose proof (parsed_object_fields d) as F.
  pose proof F as (_ & _ & _ & _ & F5). fold flag in F5.
  split; [reflexivity|]. split; [exact F|].
  split.
  - intros T. rewrite F5, T. reflexivity.
  - intros T N. rewrite T, N in F5. simpl in F5.
    unfold dict_in, dict_get_default. rewrite F5. split; reflexivity.
Qed.

Lemma parse_gemini_response_fenced_witness :
  exists analysis,
    parse_gemini_response JsonRef.loads example_response = Ok (VDict analysis)
    /\ dict_get analysis (s "clause_type") = Some (VStr (s "Payment"))
    /\ dict_get analysis (s "risk_flag") = Some (VBool false)
    /\ dict_get analysis (s "confidence") = Some float_0_7
    /\ dict_in (s "risk_reason") analysis = false
    /\ dict_get_default analysis (s "risk_reason") (VStr (s ""))
       = VStr (s "").
Proof.
  pose (d := [(s "clause_type", VStr (s "Payment"));
              (s "summary", VStr (s "..."));
              (s "risk_flag", VBool false)] : dict).
  assert (E : JsonRef.loads (strip ([NL] ++ example_object ++ [NL]))
              = Ok (VDict d)) by (vm_compute; reflexivity).
  destruct (parse_gemini_response_fenced JsonRef.loads
              ([NL] ++ example_object ++ [NL]) d E)
    as (_ & a & P & (F1 & _ & F3 & F4 & _) & _ & R).
  destruct (R eq_refl eq_refl) as (R1 & R2).
  exists a.
  split; [exact P|]. split; [exact F1|]. split; [exact F3|].
  split; [exact F4|]. split; [exact R1|exact R2].
Defined.

(** ** The analyzer *)

Section AnalyzerFacts.

Variable client : Type.
Variable api_key : option str.
Variable genai_Client : str -> result client.
Variable read_prompt_file : result str.
Variable str_format : str -> str -> result str.
Variable json_loads : str -> result value.

#[local] Abbreviation single :=
  (@analyze_single_clause client api_key genai_Client read_prompt_file
     str_format json_loads).
#[local] Abbreviation batch_from :=
  (@analyze_from client api_key genai_Client read_prompt_file
     str_format json_loads).
#[local] Abbreviation batch :=
  (@analyze_clauses_with_gemini client api_key genai_Client read_prompt_file
     str_format json_loads).
#[local] Abbreviation effective := (@effective_client client api_key genai_Client).
#[local] Abbreviation settled := (@settled_client client api_key genai_Client).

(** A clause is analysed with the effective client, by the steps of
    [analyze_single_clause]. *)
Lemma single_steps (generate_content : client -> str -> result (option str))
    (global_client : option client) (clause_text : str) (c : client) :
  effective global_client = Ok c ->
  single generate_content global_client clause_text
  = (Some c,
     prompt <- load_legal_analysis_prompt read_prompt_file ;;
     formatted_prompt <- str_format prompt clause_text ;;
     response <- generate_content c formatted_prompt ;;
     text <- response_text_of response ;;
     analysis <- parse_gemini_response json_loads text ;;
     merge_keyword_risks clause_text analysis).
Proof.
  unfold effective_client, analyze_single_clause. intros E.
  rewrite E. reflexivity.
Qed.

Lemma single_no_client (generate_content : client -> str -> result (option str))
    (global_client : option client) (clause_text : str) (e : exn) :
  effective global_client = Raise e ->
  single generate_content global_client clause_text
  = (global_client, Raise e).
Proof.
  unfold effective_client, analyze_single_clause. intros E.
  rewrite E. reflexivity.
Qed.

Lemma single_fst (generate_content : client -> str -> result (option str))
    (global_client : option client) (clause_text : str) :
  fst (single generate_content global_client clause_text)
  = settled global_client.
Proof.
  unfold settled_client.
  destruct (effective global_client) as [c|e] eqn:E.
  - rewrite (single_steps _ _ _ _ E). reflexivity.
  - rewrite (single_no_client _ _ _ _ E). reflexivity.
Qed.

Lemma effective_settled (global_client : option client) :
  effective (settled global_client) = effective global_client.
Proof.
  unfold settled_client.
  destruct (effective global_client) as [c|e] eqn:E; [|exact E].
  reflexivity.
Qed.

(** The outcome for a clause does not depend on whether the client was
    made before or is made now. *)
Lemma single_snd_settled
    (generate_content : client -> str -> result (option str))
    (global_client : option client) (clause_text : str) :
  snd (single generate_content (settled global_client) clause_text)
  = snd (single generate_content global_client clause_text).
Proof.
  pose proof (effective_settled global_client) as S.
  destruct (effective global_client) as [c|e] eqn:E.
  - rewrite (single_steps _ _ _ _ S), (single_steps _ _ _ _ E). reflexivity.
  - rewrite (single_no_client _ _ _ _ S), (single_no_client _ _ _ _ E).
    reflexivity.
Qed.

(** Nor on the service at other times than its own. *)
Lemma single_ext (g g' : client -> str -> result (option str))
    (global_client : option client) (clause_text : str) :
  (forall c p, g' c p = g c p) ->
  single g' global_client clause_text = single g global_client clause_text.
Proof.
  intros H. destruct (effective global_client) as [c|e] eqn:E.
  - rewrite !(single_steps _ _ _ _ E).
    destruct (load_legal_analysis_prompt read_prompt_file) as [p|]; simpl;
      [|reflexivity].
    destruct (str_format p clause_text) as [fp|]; simpl; [|reflexivity].
    rewrite H. reflexivity.
  - rewrite !(single_no_client _ _ _ _ E). reflexivity.
Qed.

Lemma batch_from_cons
    (generate_content : nat -> client -> str -> result (option str))
    (i : nat) (global_client : option client) (clause_text : str)
    (clauses : list str) :
  snd (batch_from generate_content i global_client (clause_text :: clauses))
  = clause_record clause_text
      (snd (single (generate_content i) global_client clause_text))
    :: snd (batch_from generate_content (S i)
              (fst (single (generate_content i) global_client clause_text))
              clauses).
Proof.
  cbn [analyze_from].
  destruct (single (generate_content i) global_client clause_text)
    as [cl1 r].
  cbn [fst snd].
  destruct (batch_from generate_content (S i) cl1 clauses) as [cl2 out].
  reflexivity.
Qed.

Lemma clause_record_text (clause_text : str) (analysis : result value) :
  original_text (clause_record clause_text analysis) = clause_text.
Proof.
  unfold clause_record.
  destruct analysis as [[|b|z|m e| |n|x|l|d]|e]; reflexivity.
Qed.

(** The record of the [k]-th clause: made from this clause and from the
    service at its time, whatever came before. *)
Lemma batch_from_nth
    (generate_content : nat -> client -> str -> result (option str))
    (clauses : list str) :
  forall (i : nat) (global_client : option client) (k : nat)
         (clause_text : str),
    nth_error clauses k = Some clause_text ->
    nth_error (snd (batch_from generate_content i global_client clauses)) k
    = Some (clause_record clause_text
              (snd (single (generate_content (i + k)) global_client
                      clause_text))).
Proof.
  induction clauses as [|c clauses IH]; intros i global_client k clause_text.
  - destruct k; discriminate.
  - rewrite batch_from_cons. destruct k as [|k]; simpl nth_error.
    + intros E. injection E as <-. rewrite Nat.add_0_r. reflexivity.
    + intros E. rewrite (IH (S i) _ k clause_text E).
      rewrite single_fst, single_snd_settled.
      replace (S i + k) with (i + S k) by lia. reflexivity.
Qed.

Lemma batch_from_texts
    (generate_content : nat -> client -> str -> result (option str))
    (clauses : list str) :
  forall (i : nat) (global_client : option client),
    map original_text
      (snd (batch_from generate_content i global_client clauses))
    = clauses.
Proof.
  induction clauses as [|c clauses IH]; intros i global_client.
  - reflexivity.
  - rewrite batch_from_cons. simpl.
    rewrite clause_record_text, IH. reflexivity.
Qed.

(** The keyword findings are merged into a dictionary unless it has the
    flag set. *)
Lemma merge_keyword_risks_dict (clause_text : str) (model : dict) :
  merge_keyword_risks clause_text (VDict model)
  = Ok (VDict
          (if truthy_list (detect_keyword_based_risks clause_text)
              && negb (truthy (dict_get_default model (s "risk_flag")
                                 (VBool false)))
           then dict_set (dict_set model (s "risk_flag") (VBool true))
                  (s "risk_reason")
                  (VStr (detect_keyword_based_risks clause_text))
           else model)).
Proof.
  unfold merge_keyword_risks. cbv zeta.
  destruct (truthy_list (detect_keyword_based_risks clause_text)); simpl;
    [|reflexivity].
  destruct (truthy (dict_get_default model (s "risk_flag") (VBool false)));
    reflexivity.
Qed.

(** C6. For a clause the model analysed successfully: when the keyword
    matcher finds something and the parsed result does not have the risk
    flag set, the final record has risk_flag true and the matcher's findings
    as risk_reason; when the parsed result has the flag set, the analysis is
    left as it is, and the record carries the model's own risk_reason,
    whatever the matcher finds. *)
Theorem keyword_risks_merged
    (generate_content : client -> str -> result (option str))
    (global_client : option client) (clause_text : str) (c : client)
    (prompt formatted_prompt response_text : str) (analysis : value) :
  effective global_client = Ok c ->
  load_legal_analysis_prompt read_prompt_file = Ok prompt ->
  str_format prompt clause_text = Ok formatted_prompt ->
  generate_content c formatted_prompt = Ok (Some response_text) ->
  response_text <> [] ->
  parse_gemini_response json_loads response_text = Ok analysis ->
  let additional_risks := detect_keyword_based_risks clause_text in
  exists model final,
    analysis = VDict model
    /\ single generate_content global_client clause_text
       = (Some c, Ok (VDict final))
    /\ (additional_risks <> [] ->
        truthy (dict_get_default model (s "risk_flag") (VBool false))
        = false ->
        risk_flag (clause_record clause_text (Ok (VDict final))) = VBool true
        /\ risk_reason (clause_record clause_text (Ok (VDict final)))
           = VStr additional_risks)
    /\ (truthy (dict_get_default model (s "risk_flag") (VBool false))
        = true ->
        final = model
        /\ risk_flag (clause_record clause_text (Ok (VDict final)))
           = dict_get_default model (s "risk_flag") (VBool false)
        /\ risk_reason (clause_record clause_text (Ok (VDict final)))
           = dict_get_default model (s "risk_reason") (VStr (s ""))).
Proof.
  intros E L F G N P additional_risks.
  destruct (parse_returns_dict json_loads response_text analysis P)
    as (model & ->).
  eexists model, _.
  split; [reflexivity|].
  split.
  - rewrite (single_steps _ _ _ _ E), L. simpl. rewrite F. simpl.
    rewrite G. simpl.
    destruct response_text as [|x r]; [exfalso; apply N; reflexivity|].
    simpl. rewrite P. simpl. rewrite merge_keyword_risks_dict. reflexivity.
  - fold additional_risks. split.
    + intros R T. rewrite T.
      destruct additional_risks as [|x r] eqn:A;
        [exfalso; apply R; reflexivity|].
      simpl. unfold dict_get_default.
      rewrite dict_get_set_other by reflexivity.
      rewrite !dict_get_set_same. split; reflexivity.
    + intros T. rewrite T. rewrite andb_false_r.
      split; [reflexivity|split; reflexivity].
Qed.

(** C2. The analyzer returns one record per clause, in the order of the
    clauses and each with the text of its clause; it is a total function,
    so no batch makes it fail. The record of a clause whose analysis raises
    - the service raises or answers with no text, or the parser raises on
    the answer - is the fallback record: "Unknown", flagged, confidence 0.0,
    manual review required. The records of the other clauses do not change
    when the service behaves otherwise at the time of clause [i]. *)
Theorem analyze_clauses_one_record_each
    (generate_content : nat -> client -> str -> result (option str))
    (global_client : option client) (clauses : list str) :
  let analyzed := snd (batch generate_content global_client clauses) in
  map original_text analyzed = clauses
  /\ length analyzed = length clauses
  /\ (forall i clause_text e,
        nth_error clauses i = Some clause_text ->
        snd (single (generate_content i) global_client clause_text)
        = Raise e ->
        nth_error analyzed i = Some (fallback_data clause_text))
  /\ (forall i clause_text c prompt formatted_prompt,
        nth_error clauses i = Some clause_text ->
        effective global_client = Ok c ->
        load_legal_analysis_prompt read_prompt_file = Ok prompt ->
        str_format prompt clause_text = Ok formatted_prompt ->
        (exists e, generate_content i c formatted_prompt = Raise e)
        \/ generate_content i c formatted_prompt = Ok None
        \/ generate_content i c formatted_prompt = Ok (Some [])
        \/ (exists response_text e,
               generate_content i c formatted_prompt
               = Ok (Some response_text)
               /\ parse_gemini_response json_loads response_text
                  = Raise e) ->
        nth_error analyzed i = Some (fallback_data clause_text))
  /\ (forall generate_content' i,
        (forall j, j <> i ->
                   forall c p, generate_content' j c p
                               = generate_content j c p) ->
        forall j, j <> i ->
          nth_error (snd (batch generate_content' global_client clauses)) j
          = nth_error analyzed j).
Proof.
  intros analyzed.
  assert (T : map original_text analyzed = clauses)
    by apply batch_from_texts.
  assert (Len : length analyzed = length clauses)
    by (rewrite <- T; symmetry; apply length_map).
  assert (Fail : forall i clause_text e,
             nth_error clauses i = Some clause_text ->
             snd (single (generate_content i) global_client clause_text)
             = Raise e ->
             nth_error analyzed i = Some (fallback_data clause_text)).
  { intros i clause_text e Hn Hr. unfold analyzed, analyze_clauses_with_gemini.
    rewrite (batch_from_nth generate_content clauses 0 global_client i
               clause_text Hn).
    simpl. rewrite Hr. reflexivity. }
  split; [exact T|]. split; [exact Len|]. split; [exact Fail|]. split.
  - intros i clause_text c prompt formatted_prompt Hn E L F Cause.
    assert (R : exists e,
               snd (single (generate_content i) global_client clause_text)
               = Raise e).
    { rewrite (single_steps _ _ _ _ E), L. simpl. rewrite F. simpl.
      destruct Cause as [(e & G)|[G|[G|(r & e & G & P)]]]; rewrite G; simpl.
      - exists e; reflexivity.
      - eexists; reflexivity.
      - eexists; reflexivity.
      - destruct r as [|x r]; simpl; [eexists; reflexivity|].
        rewrite P. exists e; reflexivity. }
    destruct R as (e & R). exact (Fail i clause_text e Hn R).
  - intros generate_content' i Same j Hj.
    unfold analyzed, analyze_clauses_with_gemini.
    destruct (nth_error clauses j) as [clause_text|] eqn:Hn.
    + rewrite !(batch_from_nth _ clauses 0 global_client j clause_text Hn).
      simpl. rewrite (single_ext _ _ _ _ (Same j Hj)). reflexivity.
    + apply nth_error_None in Hn.
      transitivity (@None clause_data); [|symmetry]; apply nth_error_None.
      * pose proof (batch_from_texts generate_content' clauses 0
                      global_client) as T'.
        rewrite <- T' in Hn at 1. rewrite length_map in Hn. exact Hn.
      * fold (batch generate_content global_client clauses).
        fold analyzed. rewrite Len. exact Hn.
Qed.

End AnalyzerFacts.

Lemma keyword_risks_merged_witness :
  exists final,
    analyze_single_clause (Some (s "key")) (fun _ => Ok tt)
      (Raise FileNotFoundError) FormatRef.format JsonRef.loads
      always_answers None indemnity_clause
    = (Some tt, Ok (VDict final))
    /\ risk_flag (clause_record indemnity_clause (Ok (VDict final)))
       = VBool true
    /\ risk_reason (clause_record indemnity_clause (Ok (VDict final)))
       = VStr (detect_keyword_based_risks indemnity_clause).
Proof.
  pose (formatted :=
          match FormatRef.format get_default_legal_analysis_prompt
                  indemnity_clause with
          | Ok x => x
          | Raise _ => []
          end).
  pose (parsed :=
          match parse_gemini_response JsonRef.loads example_response with
          | Ok a => a
          | Raise _ => VNone
          end).
  destruct (keyword_risks_merged unit (Some (s "key")) (fun _ => Ok tt)
              (Raise FileNotFoundError) FormatRef.format JsonRef.loads
              always_answers None indemnity_clause tt
              get_default_legal_analysis_prompt formatted example_response
              parsed)
    as (model & final & M & S & R & _);
    try (vm_compute; reflexivity); [vm_compute; discriminate|].
  exists final. split; [exact S|].
  apply R; [vm_compute; discriminate|].
  vm_compute in M. injection M as <-. vm_compute. reflexivity.
Defined.

Lemma analyze_clauses_one_record_each_witness :
  nth_error
    (snd (analyze_clauses_with_gemini (Some (s "key")) (fun _ => Ok tt)
            (Raise FileNotFoundError) FormatRef.format JsonRef.loads
            second_fails None
            [indemnity_clause; plain_clause; indemnity_clause])) 1
  = Some (fallback_data plain_clause).
Proof.
  destruct (analyze_clauses_one_record_each unit (Some (s "key"))
              (fun _ => Ok tt) (Raise FileNotFoundError) FormatRef.format
              JsonRef.loads second_fails None
              [indemnity_clause; plain_clause; indemnity_clause])
    as (_ & _ & F & _).
  apply (F 1 plain_clause (OtherError (s "ServerError")));
    vm_compute; reflexivity.
Defined.

(** * Further properties *)

(** ** Parts of a text *)

Lemma part_of_refl (a : str) : part_of a a.
Proof. exists [], []. rewrite app_nil_r. reflexivity. Qed.

Lemma part_of_trans (a b c : str) : part_of a b -> part_of b c -> part_of a c.
Proof.
  intros (p1 & q1 & ->) (p2 & q2 & ->).
  exists (p2 ++ p1), (q1 ++ q2). rewrite <- !app_assoc. reflexivity.
Qed.

Lemma part_of_incl (a b : str) (c : ascii) : part_of a b -> In c a -> In c b.
Proof.
  intros (p & q & ->) H. apply in_or_app. right. apply in_or_app. left.
  exact H.
Qed.

Lemma skipn_part (n : nat) (x : str) : part_of (skipn n x) x.
Proof.
  exists (firstn n x), []. rewrite app_nil_r. symmetry. apply firstn_skipn.
Qed.

Lemma firstn_part (n : nat) (x : str) : part_of (firstn n x) x.
Proof. exists [], (skipn n x). symmetry. apply firstn_skipn. Qed.

Lemma slice_part (x : str) (a b : nat) : part_of (slice x a b) x.
Proof.
  unfold slice. eapply part_of_trans; [apply firstn_part|apply skipn_part].
Qed.

Lemma lstrip_part (x : str) : part_of (lstrip x) x.
Proof.
  destruct (lstrip_suffix x) as (pre & E & _).
  exists pre, []. rewrite app_nil_r. exact E.
Qed.

Lemma rev_part (a b : str) : part_of a b -> part_of (rev a) (rev b).
Proof.
  intros (p & q & ->). exists (rev q), (rev p).
  rewrite !rev_app_distr, <- app_assoc. reflexivity.
Qed.

Lemma strip_part (x : str) : part_of (strip x) x.
Proof.
  unfold strip, rstrip.
  eapply part_of_trans; [apply lstrip_part|].
  rewrite <- (rev_involutive x) at 2. apply rev_part, lstrip_part.
Qed.

Lemma strip_length (x : str) : length (strip x) <= length x.
Proof.
  destruct (strip_part x) as (p & q & E).
  rewrite E at 2. rewrite !length_app. lia.
Qed.

(** The pieces between matches are parts of the text. *)
Lemma pieces_part (text : str) (ms : list rmatch) :
  forall cur, Forall (fun piece => part_of piece text) (pieces text cur ms).
Proof.
  induction ms as [|m ms IH]; intros cur; simpl.
  - constructor; [apply slice_part|constructor].
  - constructor; [apply slice_part|apply IH].
Qed.

(** The candidates cut at matches are parts of the text, stripped and not
    empty. *)
Lemma clauses_of_matches_parts (text : str) (ms : list rmatch) :
  Forall (fun c => part_of c text /\ strip c = c /\ c <> [])
    (clauses_of_matches text ms).
Proof.
  induction ms as [|m ms IH]; simpl; [constructor|].
  match goal with
  | |- context [truthy_list ?c] => destruct (truthy_list c) eqn:E
  end; [|exact IH].
  constructor; [|exact IH].
  split; [|split].
  - eapply part_of_trans; [apply strip_part|apply slice_part].
  - apply strip_idem.
  - apply truthy_list_true. exact E.
Qed.

Lemma numbered_loop_parts (ps : list regex) (text : str) :
  Forall (fun c => part_of c text /\ strip c = c /\ c <> [])
    (numbered_loop ps text).
Proof.
  induction ps as [|p ps IH]; cbn [numbered_loop]; [constructor|].
  destruct (2 <=? length (finditer multiline p text));
    [apply clauses_of_matches_parts|exact IH].
Qed.

Lemma long_paragraphs_parts (text : str) (paragraphs : list str) :
  Forall (fun p => part_of p text) paragraphs ->
  Forall (fun c => part_of c text /\ strip c = c /\ 100 < length c)
    (long_paragraphs paragraphs).
Proof.
  induction 1 as [|p ps Hp _ IH]; simpl; [constructor|].
  destruct (100 <? length (strip p)) eqn:E; [|exact IH].
  constructor; [|exact IH].
  split; [|split].
  - eapply part_of_trans; [apply strip_part|exact Hp].
  - apply strip_idem.
  - apply Nat.ltb_lt. exact E.
Qed.

Lemma filter_short_parts (text : str) (clauses : list str) :
  Forall (fun c => part_of c text) clauses ->
  Forall (fun c => part_of c text /\ strip c = c) (filter_short clauses).
Proof.
  induction 1 as [|c cs Hc _ IH]; simpl; [constructor|].
  destruct (50 <? length (strip c)); [|exact IH].
  constructor; [|exact IH].
  split; [eapply part_of_trans; [apply strip_part|exact Hc]|apply strip_idem].
Qed.

Lemma clean_text_stripped (text : str) :
  strip (clean_text_for_clause_detection text)
  = clean_text_for_clause_detection text.
Proof. unfold clean_text_for_clause_detection. cbv zeta. apply strip_idem. Qed.

(** The candidates of each of the three strategies are parts of the text
    they are given. *)
Lemma strategies_parts (text : str) :
  Forall (fun c => part_of c text) (detect_numbered_clauses text)
  /\ Forall (fun c => part_of c text) (detect_header_based_clauses text)
  /\ Forall (fun c => part_of c text) (detect_paragraph_based_clauses text).
Proof.
  split; [|split].
  - eapply Forall_impl; [|apply numbered_loop_parts]. intros c (H & _); exact H.
  - unfold detect_header_based_clauses. cbv zeta.
    destruct (2 <=? length (finditer multiline_ignorecase combined_pattern text));
      [|constructor].
    eapply Forall_impl; [|apply clauses_of_matches_parts].
    intros c (H & _); exact H.
  - unfold detect_paragraph_based_clauses. cbv zeta.
    eapply Forall_impl; [|apply long_paragraphs_parts, pieces_part].
    intros c (H & _); exact H.
Qed.

(** X1. Every clause the segmenter returns is a contiguous part of the
    normalized text, has no whitespace at either end and holds no carriage
    return. *)
Theorem detect_clauses_parts_of_cleaned_text (text : str) :
  Forall (fun clause =>
            part_of clause (clean_text_for_clause_detection text)
            /\ strip clause = clause
            /\ ~ In CR clause)
    (detect_clauses text).
Proof.
  set (cleaned := clean_text_for_clause_detection text).
  assert (G : forall clauses,
             Forall (fun c => part_of c cleaned) clauses ->
             Forall (fun c => part_of c cleaned /\ strip c = c /\ ~ In CR c)
               (post_filter cleaned clauses)).
  { intros clauses H. unfold post_filter.
    assert (N : forall c, part_of c cleaned -> ~ In CR c).
    { intros c P I. apply (clean_text_no_carriage_return text).
      exact (part_of_incl _ _ _ P I). }
    destruct (truthy_list (filter_short clauses)).
    - eapply Forall_impl; [|apply filter_short_parts; exact H].
      intros c (P & S). split; [exact P|split; [exact S|exact (N c P)]].
    - constructor; [|constructor].
      split; [apply part_of_refl|split].
      + apply clean_text_stripped.
      + apply N, part_of_refl. }
  destruct (strategies_parts cleaned) as (Pn & Ph & Pp).
  unfold detect_clauses.
  destruct (negb (truthy_list text) || negb (truthy_list (strip text)));
    [constructor|].
  cbv zeta. fold cleaned. apply (G _).
  destruct (truthy_list (detect_numbered_clauses cleaned)
            && (2 <? length (detect_numbered_clauses cleaned))) eqn:E1.
  - apply andb_prop in E1. destruct E1 as [T _]. rewrite T. simpl.
    rewrite T. simpl. exact Pn.
  - simpl.
    destruct (truthy_list (detect_header_based_clauses cleaned)
              && (1 <? length (detect_header_based_clauses cleaned))) eqn:E2.
    + apply andb_prop in E2. destruct E2 as [T _]. rewrite T. simpl. exact Ph.
    + simpl. exact Pp.
Qed.

(** X2. Every candidate of the numbered strategy and of the header strategy
    is a part of the text, stripped and not empty; every candidate of the
    paragraph strategy is a part of the text, stripped and longer than 100
    characters. *)
Theorem strategy_candidates_well_formed (text : str) :
  Forall (fun c => part_of c text /\ strip c = c /\ c <> [])
    (detect_numbered_clauses text)
  /\ Forall (fun c => part_of c text /\ strip c = c /\ c <> [])
       (detect_header_based_clauses text)
  /\ Forall (fun c => part_of c text /\ strip c = c /\ 100 < length c)
       (detect_paragraph_based_clauses text).
Proof.
  split; [apply numbered_loop_parts|split].
  - unfold detect_header_based_clauses. cbv zeta.
    destruct (2 <=? length (finditer multiline_ignorecase combined_pattern text));
      [apply clauses_of_matches_parts|constructor].
  - unfold detect_paragraph_based_clauses. cbv zeta.
    apply long_paragraphs_parts, pieces_part.
Qed.

(** ** Where matches start *)

Lemma match_at_start (fl : flags) (r : regex) (pv : option ascii) (p : nat)
    (x : str) (m : rmatch) :
  match_at fl r pv p x = Some m -> m_start m = p.
Proof.
  unfold match_at.
  destruct (run fl r _ _) as [st|]; [|discriminate].
  intros E. injection E as <-. reflexivity.
Qed.

Lemma increasing_from_weaken (p q : nat) (l : list nat) :
  p <= q -> increasing_from q l -> increasing_from p l.
Proof. destruct l as [|a l]; simpl; [tauto|]. intros L (H & I). split; [lia|exact I]. Qed.

(** The matches of a scan start at offsets that go up strictly and stay
    within the text. *)
Lemma scan_starts (fl : flags) (r : regex) (x : str) :
  forall (pv : option ascii) (p skip : nat),
    increasing_from p (map m_start (scan fl r pv p x skip))
    /\ Forall (fun a => a <= p + length x)
         (map m_start (scan fl r pv p x skip)).
Proof.
  induction x as [|c x IH]; intros pv p skip.
  - destruct skip as [|k]; simpl; [|split; [exact I|constructor]].
    destruct (match_at fl r pv p []) as [m|] eqn:E; simpl;
      [|split; [exact I|constructor]].
    rewrite (match_at_start _ _ _ _ _ _ E).
    split; [split; [lia|exact I]|constructor; [lia|constructor]].
  - assert (Step : forall k,
               increasing_from p
                 (map m_start (scan fl r (Some c) (S p) x k))
               /\ Forall (fun a => a <= p + length (c :: x))
                    (map m_start (scan fl r (Some c) (S p) x k))).
    { intros k. destruct (IH (Some c) (S p) k) as (I1 & B1). split.
      - apply (increasing_from_weaken p (S p)); [lia|exact I1].
      - eapply Forall_impl; [|exact B1]. simpl. intros a. lia. }
    destruct skip as [|k]; cbn [scan]; [|apply Step].
    destruct (match_at fl r pv p (c :: x)) as [m|] eqn:E; [|apply Step].
    cbn [map]. rewrite (match_at_start _ _ _ _ _ _ E).
    destruct (IH (Some c) (S p) (m_end m - p - 1)) as (I1 & B1).
    split.
    + split; [lia|exact I1].
    + constructor; [lia|].
      eapply Forall_impl; [|exact B1]. simpl. intros a. lia.
Qed.

Lemma increasing_from_head_lt (p a b : nat) (l : list nat) :
  increasing_from p (a :: b :: l) -> a < b.
Proof. simpl. intros (_ & H & _). lia. Qed.

(** ** Boundaries *)

Lemma slice_to_end (text : str) (a : nat) :
  slice text a (length text) = skipn a text.
Proof.
  unfold slice. apply firstn_all2. rewrite length_skipn. lia.
Qed.

Lemma slice_then_rest (text : str) (a b : nat) :
  a <= b -> slice text a b ++ skipn b text = skipn a text.
Proof.
  intros L. unfold slice.
  replace b with ((b - a) + a) at 2 by lia.
  rewrite <- skipn_skipn. apply firstn_skipn.
Qed.

Lemma boundaries_cover (text : str) (ms : list rmatch) :
  forall p,
    increasing_from p (map m_start ms) ->
    concat (map (boundary_text text) (boundaries_of_matches text ms))
    = match ms with
      | [] => []
      | m :: _ => skipn (m_start m) text
      end.
Proof.
  induction ms as [|m ms IH]; intros p I; [reflexivity|].
  cbn [boundaries_of_matches map concat]. unfold boundary_text at 1.
  cbn [fst snd].
  destruct ms as [|m' ms].
  - simpl. rewrite app_nil_r. apply slice_to_end.
  - cbn [map] in I. pose proof (increasing_from_head_lt _ _ _ _ I) as L.
    destruct I as (_ & I). rewrite (IH _ I).
    apply slice_then_rest. lia.
Qed.

Lemma boundaries_chain (text : str) (ms : list rmatch) :
  forall p,
    increasing_from p (map m_start ms) ->
    Forall (fun a => a <= length text) (map m_start ms) ->
    Forall (fun b => fst b <= snd b <= length text)
      (boundaries_of_matches text ms)
    /\ (forall i a b a' b',
           nth_error (boundaries_of_matches text ms) i = Some (a, b) ->
           nth_error (boundaries_of_matches text ms) (S i) = Some (a', b') ->
           b = a' /\ a < a')
    /\ last (map snd (boundaries_of_matches text ms)) (length text)
       = length text.
Proof.
  induction ms as [|m ms IH]; intros p I B.
  - split; [constructor|split; [|reflexivity]].
    intros i a b a' b' H. destruct i; discriminate H.
  - cbn [map] in I, B. inversion B as [|? ? Bm B']; subst.
    destruct ms as [|m' ms].
    + cbn. split; [constructor; [simpl; lia|constructor]|split; [|reflexivity]].
      intros i a b a' b' _ H. destruct i; discriminate H.
    + pose proof (increasing_from_head_lt _ _ _ _ I) as L.
      destruct I as (_ & I).
      destruct (IH _ I B') as (F & C & E).
      cbn [boundaries_of_matches] in *.
      inversion B' as [|? ? Bm' _]; subst.
      split; [constructor; [simpl; lia|exact F]|split].
      * intros i a b a' b' H1 H2. destruct i as [|i].
        -- cbn in H1, H2. injection H1 as <- <-. injection H2 as <- _.
           split; [reflexivity|exact L].
        -- exact (C i a b a' b' H1 H2).
      * cbn [map last] in *. exact E.
Qed.

(** X3. The boundaries of [identify_clause_boundaries] tile the text from
    the first marker to its end: each one lies within the text and ends
    where the next one starts, further on; the last one ends at the end of
    the text; and their texts, put end to end, are the text from the first
    boundary on. *)
Theorem identify_clause_boundaries_tile (text : str) :
  let boundaries := identify_clause_boundaries text in
  Forall (fun b => fst b <= snd b <= length text) boundaries
  /\ (forall i a b a' b',
         nth_error boundaries i = Some (a, b) ->
         nth_error boundaries (S i) = Some (a', b') ->
         b = a' /\ a < a')
  /\ last (map snd boundaries) (length text) = length text
  /\ concat (map (boundary_text text) boundaries)
     = match boundaries with
       | [] => []
       | (a, _) :: _ => skipn a text
       end.
Proof.
  intros boundaries. unfold boundaries, identify_clause_boundaries.
  cbv zeta. unfold finditer.
  destruct (scan_starts multiline boundary_pattern text None 0 0) as (I & B).
  set (ms := scan multiline boundary_pattern None 0 text 0) in *.
  destruct (boundaries_chain text ms 0 I B) as (F & C & E).
  split; [exact F|split; [exact C|split; [exact E|]]].
  rewrite (boundaries_cover text ms 0 I).
  destruct ms as [|m ms]; reflexivity.
Qed.

(** ** Where characters come from *)

Lemma join_incl (sep : str) (l : list str) (c : ascii) :
  In c (join sep l) -> In c sep \/ exists x, In x l /\ In c x.
Proof.
  induction l as [|x l IH]; [intros []|].
  destruct l as [|y l].
  - simpl. intros H. right. exists x. split; [left; reflexivity|exact H].
  - cbn [join]. intros H.
    apply in_app_or in H. destruct H as [H|H].
    + right. exists x. split; [left; reflexivity|exact H].
    + apply in_app_or in H. destruct H as [H|H]; [left; exact H|].
      destruct (IH H) as [S|(z & Z & I)]; [left; exact S|].
      right. exists z. split; [right; exact Z|exact I].
Qed.

Lemma pieces_incl (text : str) (ms : list rmatch) (cur : nat)
    (piece : str) (c : ascii) :
  In piece (pieces text cur ms) -> In c piece -> In c text.
Proof.
  intros P I.
  pose proof (pieces_part text ms cur) as F.
  rewrite Forall_forall in F.
  exact (part_of_incl _ _ _ (F piece P) I).
Qed.

(** A substitution brings in the characters of the replacement only. *)
Lemma sub_incl (fl : flags) (r : regex) (repl text : str) (c : ascii) :
  In c (sub fl r repl text) -> In c repl \/ In c text.
Proof.
  unfold sub. intros H.
  destruct (join_incl _ _ _ H) as [S|(x & X & I)]; [left; exact S|].
  right. exact (pieces_incl _ _ _ _ _ X I).
Qed.

Lemma replace_from_incl (old new : str) (c : ascii) (x : str) :
  forall skip,
    In c (replace_from x old new skip) -> In c new \/ In c x.
Proof.
  induction x as [|d x IH]; intros skip.
  - destruct skip; intros [].
  - destruct skip as [|k]; cbn [replace_from].
    + destruct (startswith (d :: x) old).
      * intros H. apply in_app_or in H. destruct H as [H|H]; [left; exact H|].
        destruct (IH _ H) as [N|I]; [left; exact N|right; right; exact I].
      * intros [H|H]; [right; left; exact H|].
        destruct (IH _ H) as [N|I]; [left; exact N|right; right; exact I].
    + intros H.
      destruct (IH _ H) as [N|I]; [left; exact N|right; right; exact I].
Qed.

Lemma replace_incl (x old new : str) (c : ascii) :
  In c (replace x old new) -> In c new \/ In c x.
Proof. apply replace_from_incl. Qed.

Lemma str_split_no_sep (x : str) (sep : ascii) :
  Forall (fun line => ~ In sep line) (str_split x sep).
Proof.
  induction x as [|c x IH]; cbn [str_split].
  - constructor; [intros []|constructor].
  - destruct (chr_eqb c sep) eqn:E.
    + constructor; [intros []|exact IH].
    + unfold chr_eqb in E. apply Ascii.eqb_neq in E.
      destruct (str_split x sep) as [|l ls].
      * constructor; [|constructor].
        intros H. destruct H as [H|[]]. exact (E H).
      * inversion IH as [|? ? Hl Hls]; subst.
        constructor; [|exact Hls].
        intros H. destruct H as [H|H]; [exact (E H)|exact (Hl H)].
Qed.

Lemma str_split_incl (x : str) (sep : ascii) (line : str) (c : ascii) :
  In line (str_split x sep) -> In c line -> In c x.
Proof.
  revert line. induction x as [|d x IH]; intros line; cbn [str_split].
  - intros [<-|[]] [].
  - destruct (chr_eqb d sep).
    + intros [<-|H] I; [destruct I|right; exact (IH _ H I)].
    + destruct (str_split x sep) as [|l ls].
      * intros [<-|[]] I. destruct I as [<-|[]]. left; reflexivity.
      * intros [<-|H] I.
        -- destruct I as [<-|I]; [left; reflexivity|].
           right. apply (IH l); [left; reflexivity|exact I].
        -- right. apply (IH line); [right; exact H|exact I].
Qed.

(** ** The normalizer *)

(** The text before the final [strip] has the characters of the input,
    newlines and spaces. *)
Lemma clean_text_characters (text : str) (c : ascii) :
  In c (clean_text_for_clause_detection text) ->
  c = NL \/ c = " "%char \/ In c text.
Proof.
  unfold clean_text_for_clause_detection. cbv zeta. intros H.
  apply strip_incl in H.
  apply replace_incl in H. destruct H as [[<-|[]]|H]; [left; reflexivity|].
  apply replace_incl in H. destruct H as [[<-|[]]|H]; [left; reflexivity|].
  apply sub_incl in H.
  destruct H as [[<-|[]]|H]; [right; left; reflexivity|].
  apply sub_incl in H.
  destruct H as [[<-|[<-|[]]]|H]; [left; reflexivity|left; reflexivity|].
  right; right; exact H.
Qed.

(** X4. The normalizer returns a text without carriage returns and without
    whitespace at either end, made of characters of its input, newlines and
    spaces; for a blank input it returns the empty text. *)
Theorem clean_text_normal_form (text : str) :
  ~ In CR (clean_text_for_clause_detection text)
  /\ strip (clean_text_for_clause_detection text)
     = clean_text_for_clause_detection text
  /\ (forall c, In c (clean_text_for_clause_detection text) ->
                c = NL \/ c = " "%char \/ In c text)
  /\ (blank text -> clean_text_for_clause_detection text = []).
Proof.
  split; [apply clean_text_no_carriage_return|].
  split; [apply clean_text_stripped|].
  split; [apply clean_text_characters|].
  intros B.
  rewrite <- clean_text_stripped. apply strip_blank.
  unfold blank in *. rewrite Forall_forall in *.
  intros c H. destruct (clean_text_characters text c H) as [->|[->|I]];
    [reflexivity|reflexivity|exact (B c I)].
Qed.

(** ** Metadata *)

Lemma split_head_part (fl : flags) (r : regex) (text sentence : str)
    (others : list str) :
  split fl r text = sentence :: others -> part_of sentence text.
Proof.
  unfold split. intros E.
  pose proof (pieces_part text (finditer fl r text) 0) as F.
  rewrite E in F. inversion F; assumption.
Qed.

(** X5. The metadata of a clause keeps the clause as its content; the title
    has fewer than 100 characters and no newline; the section number has no
    whitespace at either end. *)
Theorem extract_clause_metadata_bounds (clause_text : str) :
  content (extract_clause_metadata clause_text) = clause_text
  /\ length (title (extract_clause_metadata clause_text)) < 100
  /\ ~ In NL (title (extract_clause_metadata clause_text))
  /\ strip (section_number (extract_clause_metadata clause_text))
     = section_number (extract_clause_metadata clause_text).
Proof.
  unfold extract_clause_metadata. cbv zeta.
  set (number :=
         match re_match no_flags section_number_pattern clause_text with
         | Some number_match => strip (group clause_text number_match 1)
         | None => s ""
         end).
  assert (SN : strip number = number).
  { unfold number.
    destruct (re_match no_flags section_number_pattern clause_text);
      [apply strip_idem|reflexivity]. }
  pose proof (str_split_no_sep clause_text NL) as NS.
  destruct (str_split clause_text NL) as [|line lines];
    cbn [content title section_number].
  - split; [reflexivity|split; [simpl; lia|split; [intros []|exact SN]]].
  - inversion NS as [|? ? Hline _]; subst.
    set (first_line :=
           if truthy_list number
           then strip (replace (strip line) number (s ""))
           else strip line).
    assert (FL : ~ In NL first_line).
    { unfold first_line. intros H. apply Hline.
      destruct (truthy_list number).
      - apply strip_incl, replace_incl in H.
        destruct H as [[]|H]. apply strip_incl in H. exact H.
      - apply strip_incl in H. exact H. }
    set (shortened :=
           if 50 <? length first_line
           then firstn 50 first_line ++ s "..." else first_line).
    assert (SL : length shortened < 100).
    { unfold shortened. destruct (50 <? length first_line) eqn:E.
      - rewrite length_app.
        pose proof (firstn_le_length 50 first_line) as L.
        change (length (s "...")) with 3. lia.
      - apply Nat.ltb_ge in E. lia. }
    assert (SNL : ~ In NL shortened).
    { unfold shortened. destruct (50 <? length first_line); [|exact FL].
      intros H. apply in_app_or in H. destruct H as [H|H].
      - apply FL. exact (part_of_incl _ _ _ (firstn_part 50 first_line) H).
      - vm_compute in H. intuition discriminate. }
    split; [reflexivity|].
    destruct (split no_flags sentence_end first_line)
      as [|sentence others] eqn:Es.
    + split; [exact SL|split; [exact SNL|exact SN]].
    + destruct (length sentence <? 100) eqn:El.
      * apply Nat.ltb_lt in El.
        split; [pose proof (strip_length sentence); lia|].
        split; [|exact SN].
        intros H. apply FL. apply strip_incl in H.
        exact (part_of_incl _ _ _ (split_head_part _ _ _ _ _ Es) H).
      * split; [exact SL|split; [exact SNL|exact SN]].
Qed.

(** ** The keyword matcher *)

Lemma detected_risks_filter (clause_lower : str) (ps : list risk_pattern) :
  detected_risks clause_lower ps
  = map description (filter (hit clause_lower) ps).
Proof.
  induction ps as [|p ps IH]; cbn [detected_risks filter]; [reflexivity|].
  unfold hit at 1.
  destruct (any (fun keyword => contains clause_lower keyword) (keywords p));
    cbn [map]; rewrite IH; reflexivity.
Qed.

Lemma detect_keyword_based_risks_join (clause_text : str) :
  detect_keyword_based_risks clause_text
  = join (s "; ")
      (map description (filter (hit (lower clause_text)) risk_patterns)).
Proof.
  unfold detect_keyword_based_risks. cbv zeta.
  rewrite detected_risks_filter.
  destruct (map description (filter (hit (lower clause_text)) risk_patterns));
    reflexivity.
Qed.

Lemma join_nonempty (sep x : str) (l : list str) :
  x <> [] -> join sep (x :: l) <> [].
Proof.
  intros N. destruct l as [|y l]; cbn [join]; [exact N|].
  destruct x as [|c x]; [exfalso; apply N; reflexivity|discriminate].
Qed.

Lemma contains_unfold (x p : str) :
  contains x p
  = startswith x p
    || match x with [] => false | _ :: x' => contains x' p end.
Proof. destruct x; reflexivity. Qed.

Lemma contains_part (x p : str) : part_of p x -> contains x p = true.
Proof.
  intros (pre & post & ->).
  induction pre as [|c pre IH].
  - cbn [app]. rewrite contains_unfold, startswith_app. reflexivity.
  - cbn [app]. rewrite contains_unfold, IH. apply orb_true_r.
Qed.

Lemma join_cons (sep x y : str) (l : list str) :
  join sep (x :: y :: l) = x ++ sep ++ join sep (y :: l).
Proof. reflexivity. Qed.

Lemma join_part (sep : str) (l : list str) (d : str) :
  In d l -> part_of d (join sep l).
Proof.
  induction l as [|x l IH]; [intros []|].
  intros [<-|H].
  - destruct l as [|y l]; [apply part_of_refl|].
    exists [], (sep ++ join sep (y :: l)). reflexivity.
  - destruct l as [|y l]; [destruct H|]. rewrite join_cons.
    destruct (IH H) as (pre & post & E).
    exists (x ++ sep ++ pre), post. rewrite E, <- !app_assoc. reflexivity.
Qed.

(** X6. The matcher returns the descriptions of the categories that are
    hit, in the order of the catalogue, joined by "; "; it returns the
    empty text exactly when no category is hit. *)
Theorem detect_keyword_based_risks_catalogue_order (clause_text : str) :
  detect_keyword_based_risks clause_text
  = join (s "; ")
      (map description (filter (hit (lower clause_text)) risk_patterns))
  /\ (detect_keyword_based_risks clause_text = []
      <-> forall p, In p risk_patterns -> hit (lower clause_text) p = false).
Proof.
  split; [apply detect_keyword_based_risks_join|].
  rewrite detect_keyword_based_risks_join.
  assert (D : Forall (fun p => description p <> []) risk_patterns)
    by (repeat constructor; discriminate).
  split.
  - intros E p Hp.
    destruct (hit (lower clause_text) p) eqn:Hh; [|reflexivity].
    exfalso.
    assert (I : In p (filter (hit (lower clause_text)) risk_patterns))
      by (apply filter_In; split; assumption).
    destruct (filter (hit (lower clause_text)) risk_patterns) as [|q qs] eqn:F;
      [exact I|].
    cbn [map] in E. revert E. apply join_nonempty.
    rewrite Forall_forall in D. apply D.
    assert (Q : In q (filter (hit (lower clause_text)) risk_patterns))
      by (rewrite F; left; reflexivity).
    apply filter_In in Q. exact (proj1 Q).
  - intros H.
    assert (F : filter (hit (lower clause_text)) risk_patterns = []).
    { destruct (filter (hit (lower clause_text)) risk_patterns) as [|q qs] eqn:F;
        [reflexivity|].
      assert (Q : In q (filter (hit (lower clause_text)) risk_patterns))
        by (rewrite F; left; reflexivity).
      apply filter_In in Q. destruct Q as (Q1 & Q2).
      rewrite (H q Q1) in Q2. discriminate Q2. }
    rewrite F. reflexivity.
Qed.

Lemma lower_chr_idem (c : ascii) : lower_chr (lower_chr c) = lower_chr c.
Proof. destruct c as [[] [] [] [] [] [] [] []]; reflexivity. Qed.

Lemma lower_idem (x : str) : lower (lower x) = lower x.
Proof.
  unfold lower. rewrite map_map. apply map_ext. apply lower_chr_idem.
Qed.

(** X7. When a keyword of a category occurs in the clause in any case of
    its letters, the description of the category occurs in what the matcher
    returns; and the matcher returns the same for a clause and for its
    lower-cased form. *)
Theorem detect_keyword_based_risks_reports_hits (clause_text : str) :
  (forall p keyword,
      In p risk_patterns -> In keyword (keywords p) ->
      contains (lower clause_text) keyword = true ->
      contains (detect_keyword_based_risks clause_text) (description p)
      = true)
  /\ detect_keyword_based_risks (lower clause_text)
     = detect_keyword_based_risks clause_text.
Proof.
  split.
  - intros p keyword Hp Hk Hc.
    rewrite detect_keyword_based_risks_join.
    apply contains_part, join_part, in_map, filter_In.
    split; [exact Hp|].
    unfold hit, any. apply existsb_exists.
    exists keyword. split; assumption.
  - rewrite !detect_keyword_based_risks_join, lower_idem. reflexivity.
Qed.

(** ** More on the response parser *)

Lemma validate_required_other_type (fields : list str) (v : value) :
  (forall d, v <> VDict d) ->
  validate_required fields v = Ok v
  \/ validate_required fields v = Raise TypeError.
Proof.
  intros N. induction fields as [|field fields IH]; simpl; [left; reflexivity|].
  destruct v as [|b|z|m e| |n|x|l|d0]; simpl;
    try (right; reflexivity).
  - destruct (contains x field); simpl; [exact IH|right; reflexivity].
  - destruct (existsb (fun x => eq_str x field) l); simpl;
      [exact IH|right; reflexivity].
  - exfalso. exact (N d0 eq_refl).
Qed.

(** X8. The parser recovers from a response that does not decode and from
    nothing else: a response that decodes to a value other than an object
    makes it raise TypeError or AttributeError, and any other exception of
    the decoder is passed on. *)
Theorem parse_gemini_response_raises (json_loads : str -> result value)
    (response_text : str) :
  (forall v, json_loads (clean_response response_text) = Ok v ->
             (forall d, v <> VDict d) ->
             parse_gemini_response json_loads response_text = Raise TypeError
             \/ parse_gemini_response json_loads response_text
                = Raise AttributeError)
  /\ (forall e, json_loads (clean_response response_text) = Raise e ->
                e <> JSONDecodeError ->
                parse_gemini_response json_loads response_text = Raise e).
Proof.
  split.
  - intros v E N. unfold parse_gemini_response. cbv zeta. rewrite E.
    destruct (validate_required_other_type required_fields v N) as [V|V];
      rewrite V; simpl; [|left; reflexivity].
    destruct v as [|b|z|m e0| |n|x|l|d0]; simpl;
      try (right; reflexivity).
    exfalso. exact (N d0 eq_refl).
  - intros e E N. unfold parse_gemini_response. cbv zeta. rewrite E.
    destruct e; try reflexivity. exfalso. apply N. reflexivity.
Qed.

Lemma parse_gemini_response_raises_witness :
  parse_gemini_response JsonRef.loads (s "[]") = Raise TypeError
  /\ parse_gemini_response JsonRef.loads
       (s "[" ++ quoted "clause_type" ++ s "," ++ quoted "summary" ++ s ","
          ++ quoted "risk_flag" ++ s "]")
     = Raise AttributeError.
Proof.
  split.
  - destruct (parse_gemini_response_raises JsonRef.loads (s "[]"))
      as (H & _).
    destruct (H (VList []) eq_refl) as [T|A];
      [intros d; discriminate|exact T|].
    vm_compute in A. discriminate A.
  - vm_compute. reflexivity.
Defined.

Lemma dict_in_set (d : dict) (k k' : str) (v : value) :
  dict_in k d = true -> dict_in k (dict_set d k' v) = true.
Proof.
  unfold dict_in. intros H.
  destruct (str_eqb k' k) eqn:E.
  - apply str_eqb_eq in E. subst k'. rewrite dict_get_set_same. reflexivity.
  - rewrite (dict_get_set_other _ _ _ _ E). exact H.
Qed.

Lemma dict_in_backfill (d : dict) (k field : str) :
  dict_in k d = true -> dict_in k (backfill d field) = true.
Proof.
  unfold backfill. intros H.
  destruct (dict_in field d); [exact H|apply dict_in_set; exact H].
Qed.

Lemma other_key_analysis (k : str) :
  other_key analysis_keys k ->
  str_eqb (s "clause_type") k = false
  /\ str_eqb (s "summary") k = false
  /\ str_eqb (s "risk_flag") k = false
  /\ str_eqb (s "risk_reason") k = false
  /\ str_eqb (s "confidence") k = false.
Proof.
  unfold other_key, analysis_keys. cbn [forallb].
  rewrite !andb_true_iff, !negb_true_iff. tauto.
Qed.

(** X9. From a decoded object the parser drops nothing: every key of the
    object is a key of what it returns, and the keys other than the five of
    an analysis come back with their values, or absent, as they were. *)
Theorem parse_gemini_response_keeps_keys (json_loads : str -> result value)
    (response_text : str) (d : dict) :
  json_loads (clean_response response_text) = Ok (VDict d) ->
  exists analysis,
    parse_gemini_response json_loads response_text = Ok (VDict analysis)
    /\ (forall k, dict_in k d = true -> dict_in k analysis = true)
    /\ (forall k, other_key analysis_keys k ->
                  dict_get analysis k = dict_get d k).
Proof.
  intros E. exists (parsed_object d).
  split; [exact (parse_object json_loads response_text d E)|].
  unfold parsed_object. cbv zeta.
  set (d1 := fold_left backfill required_fields d).
  set (d2 := if truthy (dict_get_default d1 (s "risk_flag") (VBool false))
                && negb (truthy (dict_get_default d1 (s "risk_reason") VNone))
             then dict_set d1 (s "risk_reason") (VStr placeholder_reason)
             else d1).
  split.
  - intros k H.
    assert (H1 : dict_in k d1 = true)
      by (unfold d1; simpl; repeat apply dict_in_backfill; exact H).
    assert (H2 : dict_in k d2 = true).
    { unfold d2. destruct (_ && _); [apply dict_in_set|]; exact H1. }
    destruct (dict_in (s "confidence") d2); [|apply dict_in_set]; exact H2.
  - intros k O. destruct (other_key_analysis k O) as (N1 & N2 & N3 & N4 & N5).
    assert (G1 : dict_get d1 k = dict_get d k).
    { unfold d1. simpl.
      rewrite (dict_get_backfill_other _ _ _ N3).
      rewrite (dict_get_backfill_other _ _ _ N2).
      apply (dict_get_backfill_other _ _ _ N1). }
    assert (G2 : dict_get d2 k = dict_get d k).
    { unfold d2. destruct (_ && _); [|exact G1].
      rewrite (dict_get_set_other _ _ _ _ N4). exact G1. }
    destruct (dict_in (s "confidence") d2); [exact G2|].
    rewrite (dict_get_set_other _ _ _ _ N5). exact G2.
Qed.

Lemma parse_gemini_response_keeps_keys_witness :
  exists analysis,
    parse_gemini_response JsonRef.loads
      (s "{" ++ quoted "section" ++ s ": 4}")
    = Ok (VDict analysis)
    /\ dict_get analysis (s "section") = Some (VInt 4).
Proof.
  destruct (parse_gemini_response_keeps_keys JsonRef.loads
              (s "{" ++ quoted "section" ++ s ": 4}")
              [(s "section", VInt 4)] eq_refl) as (a & P & _ & K).
  exists a. split; [exact P|].
  rewrite (K (s "section") eq_refl). reflexivity.
Defined.

(** ** More on the analyzer *)

Section AnalyzerBatches.

Variable client : Type.
Variable api_key : option str.
Variable genai_Client : str -> result client.
Variable read_prompt_file : result str.
Variable str_format : str -> str -> result str.
Variable json_loads : str -> result value.

#[local] Abbreviation one :=
  (@analyze_single_clause client api_key genai_Client read_prompt_file
     str_format json_loads).
#[local] Abbreviation from :=
  (@analyze_from client api_key genai_Client read_prompt_file
     str_format json_loads).
#[local] Abbreviation analyze :=
  (@analyze_clauses_with_gemini client api_key genai_Client read_prompt_file
     str_format json_loads).
#[local] Abbreviation effective_c :=
  (@effective_client client api_key genai_Client).
#[local] Abbreviation settled_c :=
  (@settled_client client api_key genai_Client).

Lemma from_nil (g : nat -> client -> str -> result (option str)) (i : nat)
    (cl : option client) :
  from g i cl [] = (cl, []).
Proof. reflexivity. Qed.

Lemma from_cons (g : nat -> client -> str -> result (option str)) (i : nat)
    (cl : option client) (clause_text : str) (clauses : list str) :
  from g i cl (clause_text :: clauses)
  = (fst (from g (S i) (fst (one (g i) cl clause_text)) clauses),
     clause_record clause_text (snd (one (g i) cl clause_text))
     :: snd (from g (S i) (fst (one (g i) cl clause_text)) clauses)).
Proof.
  cbn [analyze_from].
  destruct (one (g i) cl clause_text) as [cl1 r]. cbn [fst snd].
  destruct (from g (S i) cl1 clauses) as [cl2 out]. reflexivity.
Qed.

(** X10. Without an API key and without a client made before, every clause
    gets the fallback record, whatever the service would answer, and no
    client is made. *)
Theorem analyze_without_api_key
    (g : nat -> client -> str -> result (option str)) (clauses : list str) :
  api_key = None \/ api_key = Some [] ->
  analyze g None clauses = (None, map fallback_data clauses).
Proof.
  intros K. unfold analyze_clauses_with_gemini.
  assert (E : exists e, effective_c None = Raise e).
  { unfold effective_client, get_gemini_client.
    destruct K as [-> | ->]; eexists; reflexivity. }
  destruct E as (e & E).
  generalize 0. induction clauses as [|c clauses IH]; intros i;
    [reflexivity|].
  rewrite from_cons, (single_no_client _ _ _ _ _ _ _ _ _ _ E).
  cbn [fst snd]. rewrite IH. reflexivity.
Qed.

Lemma from_shift (g g' : nat -> client -> str -> result (option str))
    (clauses : list str) :
  forall i i' cl,
    (forall j, g (i + j) = g' (i' + j)) ->
    from g i cl clauses = from g' i' cl clauses.
Proof.
  induction clauses as [|c clauses IH]; intros i i' cl H; [reflexivity|].
  rewrite !from_cons.
  pose proof (H 0) as H0. rewrite !Nat.add_0_r in H0. rewrite H0.
  rewrite (IH (S i) (S i') _); [reflexivity|].
  intros j. specialize (H (S j)).
  replace (S i + j) with (i + S j) by lia.
  replace (S i' + j) with (i' + S j) by lia. exact H.
Qed.

Lemma from_app (g : nat -> client -> str -> result (option str))
    (l1 l2 : list str) :
  forall i cl,
    from g i cl (l1 ++ l2)
    = (fst (from g (i + length l1) (fst (from g i cl l1)) l2),
       snd (from g i cl l1)
       ++ snd (from g (i + length l1) (fst (from g i cl l1)) l2)).
Proof.
  induction l1 as [|c l1 IH]; intros i cl.
  - cbn [app length]. rewrite Nat.add_0_r, from_nil. cbn [fst snd app].
    destruct (from g i cl l2); reflexivity.
  - cbn [app length]. rewrite !from_cons, IH. cbn [fst snd].
    replace (S i + length l1) with (i + S (length l1)) by lia.
    reflexivity.
Qed.

(** X11. A batch analysed in two calls, the second with the client the
    first left and with the service as it is from then on, gives the records
    of the whole batch analysed in one call, and leaves the same client. *)
Theorem analyze_in_two_calls
    (g : nat -> client -> str -> result (option str))
    (global_client : option client) (l1 l2 : list str) :
  let first := analyze g global_client l1 in
  let second := analyze (fun j => g (length l1 + j)) (fst first) l2 in
  analyze g global_client (l1 ++ l2)
  = (fst second, snd first ++ snd second).
Proof.
  intros first second. unfold first, second, analyze_clauses_with_gemini.
  rewrite from_app. cbn [Nat.add].
  rewrite (from_shift g (fun j => g (length l1 + j)) l2 (length l1) 0);
    [reflexivity|].
  intros j. reflexivity.
Qed.

Lemma settled_idem (cl : option client) :
  settled_c (settled_c cl) = settled_c cl.
Proof.
  unfold settled_client, effective_client.
  destruct cl as [c|]; [reflexivity|].
  destruct (get_gemini_client api_key genai_Client) as [c|e] eqn:E;
    reflexivity.
Qed.

(** X12. After a batch of at least one clause the global client is the one
    there was, or else the one made from the API key, or none when it could
    not be made; a client that exists is never replaced. *)
Theorem analyze_client_after
    (g : nat -> client -> str -> result (option str))
    (global_client : option client) (clauses : list str) :
  fst (analyze g global_client clauses)
  = match clauses with
    | [] => global_client
    | _ :: _ =>
        match global_client with
        | Some c => Some c
        | None =>
            match get_gemini_client api_key genai_Client with
            | Ok c => Some c
            | Raise _ => None
            end
        end
    end.
Proof.
  unfold analyze_clauses_with_gemini.
  assert (S : forall l i cl, fst (from g i (settled_c cl) l) = settled_c cl).
  { induction l as [|c l IH]; intros i cl; [reflexivity|].
    rewrite from_cons. cbn [fst].
    rewrite (single_fst client api_key genai_Client read_prompt_file
               str_format json_loads).
    rewrite settled_idem. apply IH. }
  destruct clauses as [|c clauses]; [reflexivity|].
  rewrite from_cons. cbn [fst].
  rewrite (single_fst client api_key genai_Client read_prompt_file
             str_format json_loads).
  rewrite S. unfold settled_client, effective_client.
  destruct global_client as [c0|]; [reflexivity|].
  destruct (get_gemini_client api_key genai_Client); reflexivity.
Qed.

End AnalyzerBatches.

Lemma analyze_without_api_key_witness :
  analyze_clauses_with_gemini None (fun _ => Ok tt)
    (Raise FileNotFoundError) FormatRef.format JsonRef.loads
    (fun _ => always_answers) None [indemnity_clause; plain_clause]
  = (None, [fallback_data indemnity_clause; fallback_data plain_clause]).
Proof.
  exact (analyze_without_api_key unit None (fun _ => Ok tt)
           (Raise FileNotFoundError) FormatRef.format JsonRef.loads
           (fun _ => always_answers) [indemnity_clause; plain_clause]
           (or_introl eq_refl)).
Defined.

(** X13. The merge of the keyword findings changes nothing but risk_flag
    and risk_reason, drops no key, leaves an analysis alone when its flag is
    set or when the matcher finds nothing, and sets the flag exactly when
    it was set or the matcher finds something. *)
Theorem merge_keyword_risks_only_flags (clause_text : str) (model : dict) :
  exists final,
    merge_keyword_risks clause_text (VDict model) = Ok (VDict final)
    /\ (forall k, other_key [s "risk_flag"; s "risk_reason"] k ->
                  dict_get final k = dict_get model k)
    /\ (forall k, dict_in k model = true -> dict_in k final = true)
    /\ (truthy (dict_get_default model (s "risk_flag") (VBool false)) = true
        \/ detect_keyword_based_risks clause_text = [] ->
        final = model)
    /\ truthy (dict_get_default final (s "risk_flag") (VBool false))
       = truthy (dict_get_default model (s "risk_flag") (VBool false))
         || truthy_list (detect_keyword_based_risks clause_text).
Proof.
  eexists. split; [apply merge_keyword_risks_dict|].
  set (risks := detect_keyword_based_risks clause_text).
  set (flag := truthy (dict_get_default model (s "risk_flag") (VBool false))).
  destruct (truthy_list risks) eqn:R; destruct flag eqn:F; cbn [andb negb].
  - repeat split; try reflexivity; auto.
  - split; [|split; [|split]].
    + intros k O. unfold other_key in O. cbn [forallb] in O.
      rewrite !andb_true_iff, !negb_true_iff in O. destruct O as (N1 & N2 & _).
      rewrite (dict_get_set_other _ _ _ _ N2).
      apply (dict_get_set_other _ _ _ _ N1).
    + intros k H. repeat apply dict_in_set. exact H.
    + intros [H|H]; [discriminate H|].
      rewrite H in R. discriminate R.
    + unfold dict_get_default.
      rewrite dict_get_set_other by reflexivity.
      rewrite dict_get_set_same. reflexivity.
  - repeat split; try reflexivity; auto.
  - repeat split; try reflexivity; auto.
Qed.

(** ** Text extraction *)

Section ExtractionFacts.

Variable fitz : str -> outcome (list str).
Variable pdfplumber : str -> outcome (list (option str)).
Variable docx : str -> outcome (list str * list (list (list str))).
Variable docx2txt : str -> outcome (option str).
Variable splitext : str -> str * str.

#[local] Abbreviation extract :=
  (extract_text_from_file fitz pdfplumber docx docx2txt splitext).

Lemma extract_pdf_text_shape (file_path : str) :
  match extract_pdf_text fitz pdfplumber file_path with
  | Done text => strip text = text
  | Fails e => exists message, e = Error message
  end.
Proof.
  unfold extract_pdf_text.
  destruct (fitz file_path) as [pages|[m|m]].
  - apply strip_idem.
  - destruct (pdfplumber file_path) as [pages|[m'|m']].
    + apply strip_idem.
    + eexists; reflexivity.
    + eexists; reflexivity.
  - eexists; reflexivity.
Qed.

Lemma extract_docx_text_shape (file_path : str) :
  match extract_docx_text docx docx2txt file_path with
  | Done text => strip text = text
  | Fails e => exists message, e = Error message
  end.
Proof.
  unfold extract_docx_text.
  destruct (docx file_path) as [[paragraphs tables]|[m|m]].
  - apply strip_idem.
  - destruct (docx2txt file_path) as [[text|]|[m'|m']].
    + destruct (truthy_list text); [apply strip_idem|reflexivity].
    + reflexivity.
    + eexists; reflexivity.
    + eexists; reflexivity.
  - eexists; reflexivity.
Qed.

(** X14. Whatever the libraries do, a text that [extract_text_from_file]
    returns has no whitespace at either end, and a failure is never an
    ImportError: a missing library is reported as an exception of its own.
    A file whose extension, lower-cased, is neither .pdf nor .docx is
    refused with that extension in the message, before any library is
    asked. *)
Theorem extract_text_from_file_outcomes (file_path : str) :
  match extract file_path with
  | Done text => strip text = text
  | Fails e => exists message, e = Error message
  end
  /\ (let file_extension := lower (snd (splitext file_path)) in
      file_extension <> s ".pdf" -> file_extension <> s ".docx" ->
      extract file_path
      = Fails (Error (s "Unsupported file format: " ++ file_extension))).
Proof.
  unfold extract_text_from_file. cbv zeta.
  destruct (str_eqb (lower (snd (splitext file_path))) (s ".pdf")) eqn:P.
  - split; [apply extract_pdf_text_shape|].
    apply str_eqb_eq in P. intros N. exfalso. exact (N P).
  - destruct (str_eqb (lower (snd (splitext file_path))) (s ".docx")) eqn:D.
    + split; [apply extract_docx_text_shape|].
      apply str_eqb_eq in D. intros _ N. exfalso. exact (N D).
    + split; [eexists; reflexivity|reflexivity].
Qed.

End ExtractionFacts.

(** ** The application *)

Lemma detect_clauses_truthy (text : str) :
  truthy_list (strip text) = true -> truthy_list (detect_clauses text) = true.
Proof.
  intros T. apply truthy_list_true in T.
  unfold detect_clauses. rewrite (guard_passes text T). cbv zeta.
  pose proof (post_filter_nonempty
                (clean_text_for_clause_detection text)) as N.
  unfold post_filter in N.
  match goal with
  | |- truthy_list ?l = true =>
      destruct l eqn:E; [|reflexivity]
  end.
  exfalso. eapply N. exact E.
Qed.

Section MainFacts.

Variable client : Type.
Variable api_key : option str.
Variable genai_Client : str -> result client.
Variable read_prompt_file : result str.
Variable str_format : str -> str -> result str.
Variable json_loads : str -> result value.
Variable generate_content : nat -> client -> str -> result (option str).
Variable extract_uploaded : str -> outcome str.

#[local] Abbreviation run_main :=
  (@main client api_key genai_Client read_prompt_file str_format json_loads
     generate_content extract_uploaded).
#[local] Abbreviation analyze_all :=
  (@analyze_clauses_with_gemini client api_key genai_Client read_prompt_file
     str_format json_loads generate_content).

(** Past the checks for text, [main] shows the results of the analysis of
    the detected clauses. *)
Lemma main_analyzes (extracted_text : str) (global_client : option client) :
  truthy_list (strip extracted_text) = true ->
  (if negb (truthy_list (strip extracted_text))
   then (global_client, NoTextExtracted)
   else
     let clauses := detect_clauses extracted_text in
     if negb (truthy_list clauses)
     then (global_client, NoClausesDetected)
     else
       let (global_client, analyzed_clauses) :=
         analyze_all global_client clauses in
       (global_client, AnalysisResults analyzed_clauses))
  = (fst (analyze_all global_client (detect_clauses extracted_text)),
     AnalysisResults
       (snd (analyze_all global_client (detect_clauses extracted_text)))).
Proof.
  intros T. rewrite T. cbv zeta. cbn [negb].
  rewrite (detect_clauses_truthy extracted_text T). cbn [negb].
  destruct (analyze_all global_client (detect_clauses extracted_text)).
  reflexivity.
Qed.

(** X15. The message that no clauses could be detected is never shown:
    [main] reaches the segmenter only with a text that is not blank, for
    which the segmenter returns at least one clause. *)
Theorem main_never_no_clauses (uploaded_file : option str)
    (contract_text : str) (global_client : option client) :
  snd (run_main uploaded_file contract_text global_client)
  <> NoClausesDetected.
Proof.
  unfold main. destruct uploaded_file as [tmp_file_path|].
  - destruct (extract_uploaded tmp_file_path) as [extracted_text|e];
      [|discriminate].
    destruct (truthy_list (strip extracted_text)) eqn:T.
    + rewrite <- T at 1. rewrite (main_analyzes _ _ T). discriminate.
    + discriminate.
  - destruct (truthy_list (strip contract_text)) eqn:T; cbn [negb];
      [|discriminate].
    cbv zeta.
    assert (T' : truthy_list (strip (strip contract_text)) = true)
      by (rewrite strip_idem; exact T).
    rewrite (main_analyzes _ _ T'). discriminate.
Qed.


End MainFacts.


(** ** Runs of spaces *)

Lemma run_star (fl : flags) (r : regex) (st : mstate)
    (k : mstate -> option mstate) :
  run fl (Star r) st k = star_loop fl r k (length (rest st)) st.
Proof. reflexivity. Qed.

Lemma star_loop_spaces (fuel : nat) :
  forall st,
    span_spaces (rest st) <= fuel ->
    exists st',
      star_loop no_flags (Chr " "%char) (fun st => Some st) fuel st = Some st'
      /\ pos st' = pos st + span_spaces (rest st).
Proof.
  induction fuel as [|fuel IH]; intros st L.
  - exists st. split; [reflexivity|lia].
  - cbn [star_loop run].
    destruct (rest st) as [|x t] eqn:R.
    + exists st. split; [reflexivity|simpl; lia].
    + cbn [span_spaces] in *. unfold chr_matches. cbn [IGNORECASE no_flags].
      unfold is_space_chr in *.
      destruct (chr_eqb " "%char x) eqn:E.
      * cbn [advance pos].
        assert (P : (pos st <? S (pos st)) = true) by (apply Nat.ltb_lt; lia).
        rewrite P.
        destruct (IH (advance st x t)) as (st' & S' & P').
        { cbn [advance rest]. lia. }
        fold (star_loop no_flags (Chr " "%char) (fun st => Some st)).
        rewrite S'. exists st'. split; [reflexivity|].
        rewrite P'. cbn [advance rest pos]. lia.
      * exists st. split; [reflexivity|lia].
Qed.

Lemma span_spaces_le (x : str) : span_spaces x <= length x.
Proof.
  induction x as [|c x IH]; simpl; [lia|].
  destruct (is_space_chr c); simpl; lia.
Qed.

Lemma match_at_spaces_cons (pv : option ascii) (p : nat) (c : ascii)
    (t : str) :
  match_at no_flags spaces pv p (c :: t)
  = if chr_eqb " "%char c
    then match star_loop no_flags (Chr " "%char) (fun st => Some st)
                 (length t)
                 (advance {| pos := p; prev := pv; rest := c :: t;
                             caps := [] |} c t) with
         | Some st =>
             Some {| m_start := p; m_end := pos st; m_caps := caps st |}
         | None => None
         end
    else None.
Proof.
  unfold match_at, spaces, Plus. cbn [run rest].
  unfold chr_matches. cbn [IGNORECASE no_flags].
  destruct (chr_eqb " "%char c); reflexivity.
Qed.

(** The pattern of spaces matches the whole run of spaces at an offset, and
    does not match where there is no space. *)
Lemma match_at_spaces (pv : option ascii) (p : nat) (x : str) :
  match match_at no_flags spaces pv p x with
  | Some m => 0 < span_spaces x /\ m_start m = p
              /\ m_end m = p + span_spaces x
  | None => span_spaces x = 0
  end.
Proof.
  destruct x as [|c t]; [reflexivity|].
  rewrite match_at_spaces_cons. cbn [span_spaces]. unfold is_space_chr.
  destruct (chr_eqb " "%char c); [|reflexivity].
  destruct (star_loop_spaces (length t)
              (advance {| pos := p; prev := pv; rest := c :: t; caps := [] |}
                 c t)) as (st' & S' & P').
  { cbn [advance rest]. apply span_spaces_le. }
  rewrite S'. cbn [advance rest pos] in P'. cbn [m_start m_end].
  split; [lia|split; [reflexivity|lia]].
Qed.

Lemma slice_same (text : str) (a : nat) : slice text a a = [].
Proof. unfold slice. rewrite Nat.sub_diag. reflexivity. Qed.

Lemma slice_beyond (text : str) (a b : nat) :
  length text <= a -> slice text a b = [].
Proof.
  intros L. unfold slice. rewrite (skipn_all2 text L). apply firstn_nil.
Qed.

Lemma slice_snoc (done x' : str) (c : ascii) (cur : nat) :
  cur <= length done ->
  slice (done ++ c :: x') cur (S (length done))
  = slice (done ++ c :: x') cur (length done) ++ [c].
Proof.
  intros L. unfold slice.
  rewrite skipn_app. replace (cur - length done) with 0 by lia.
  cbn [skipn].
  assert (Ld : length (skipn cur done) = length done - cur)
    by apply length_skipn.
  rewrite !firstn_app, Ld.
  replace (S (length done) - cur - (length done - cur)) with 1 by lia.
  replace (length done - cur - (length done - cur)) with 0 by lia.
  cbn [firstn]. rewrite app_nil_r.
  rewrite !firstn_all2 by lia. reflexivity.
Qed.

Lemma join_pieces (sep a text : str) (cur : nat) (ms : list rmatch) :
  join sep (a :: pieces text cur ms) = a ++ sep ++ join sep (pieces text cur ms).
Proof. destruct ms; reflexivity. Qed.

Lemma is_space_chr_eq (c : ascii) : is_space_chr c = true -> c = " "%char.
Proof.
  unfold is_space_chr, chr_eqb. intros E. apply Ascii.eqb_eq in E.
  symmetry. exact E.
Qed.

Lemma collapse_true_skip (x : str) :
  collapse_spaces true x = collapse_spaces false (skipn (span_spaces x) x).
Proof.
  induction x as [|c x IH]; [reflexivity|].
  cbn [collapse_spaces span_spaces].
  destruct (is_space_chr c) eqn:E.
  - cbn [skipn]. exact IH.
  - cbn [skipn collapse_spaces]. rewrite E. reflexivity.
Qed.

(** The substitution of one space for the runs of spaces, from an offset of
    the scan on. *)
Lemma sub_spaces_from (text x : str) :
  forall done pv skip cur,
    text = done ++ x ->
    (skip = 0 -> cur <= length done) ->
    (0 < skip -> cur = length done + skip) ->
    join (s " ")
      (pieces text cur (scan no_flags spaces pv (length done) x skip))
    = slice text cur (length done + skip)
      ++ collapse_spaces false (skipn skip x).
Proof.
  induction x as [|c x IH]; intros done pv skip cur E H0 H1.
  - assert (Lt : length text = length done)
      by (rewrite E, app_nil_r; reflexivity).
    destruct skip as [|k].
    + cbn [scan].
      pose proof (match_at_spaces pv (length done) []) as M.
      destruct (match_at no_flags spaces pv (length done) []) as [m|].
      * cbn [span_spaces] in M. lia.
      * cbn [pieces join skipn collapse_spaces].
        rewrite Lt, Nat.add_0_r, app_nil_r. reflexivity.
    + cbn [scan pieces join skipn collapse_spaces].
      rewrite app_nil_r.
      rewrite (slice_beyond text cur (length text)) by lia.
      rewrite (H1 ltac:(lia)). symmetry. apply slice_same.
  - assert (E' : text = (done ++ [c]) ++ x)
      by (rewrite <- app_assoc; exact E).
    assert (L' : length (done ++ [c]) = S (length done))
      by (rewrite length_app; simpl; lia).
    destruct skip as [|k].
    + cbn [scan].
      pose proof (match_at_spaces pv (length done) (c :: x)) as M.
      destruct (match_at no_flags spaces pv (length done) (c :: x))
        as [m|].
      * destruct M as (Sp & Ms & Me).
        cbn [span_spaces] in Sp, Me.
        destruct (is_space_chr c) eqn:Ec; [|lia].
        cbn [pieces]. rewrite join_pieces, Ms.
        replace (m_end m - length done - 1) with (span_spaces x) by lia.
        rewrite <- L'.
        rewrite (IH (done ++ [c]) (Some c) (span_spaces x) (m_end m) E');
          [|rewrite L'; lia|rewrite L'; lia].
        rewrite L', Me.
        replace (length done + S (span_spaces x))
          with (S (length done) + span_spaces x) by lia.
        rewrite slice_same, Nat.add_0_r.
        cbn [skipn collapse_spaces app]. rewrite Ec.
        rewrite collapse_true_skip.
        rewrite (is_space_chr_eq c Ec). reflexivity.
      * cbn [span_spaces] in M.
        destruct (is_space_chr c) eqn:Ec; [discriminate M|].
        rewrite <- L'.
        rewrite (IH (done ++ [c]) (Some c) 0 cur E');
          [|rewrite L'; intros _; specialize (H0 eq_refl); lia|lia].
        rewrite L', !Nat.add_0_r.
        cbn [skipn collapse_spaces]. rewrite Ec.
        rewrite E at 1. rewrite (slice_snoc done x c cur (H0 eq_refl)).
        rewrite <- E, <- app_assoc. reflexivity.
    + cbn [scan]. rewrite <- L'.
      rewrite (IH (done ++ [c]) (Some c) k cur E');
        [|rewrite L'; specialize (H1 ltac:(lia)); lia
         |rewrite L'; specialize (H1 ltac:(lia)); lia].
      rewrite L'.
      replace (S (length done) + k) with (length done + S k) by lia.
      reflexivity.
Qed.

(** [re.sub(r' +', ' ', text)] makes each run of spaces one space. *)
Lemma sub_spaces_collapse (text : str) :
  sub no_flags spaces (s " ") text = collapse_spaces false text.
Proof.
  unfold sub, finditer.
  exact (sub_spaces_from text text [] None 0 0 eq_refl
           (fun _ => le_n 0) (fun H => match Nat.lt_irrefl 0 H with end)).
Qed.

(** ** No two in a row *)

Lemma starts_with_chr_app (c : ascii) (a b : str) :
  a <> [] -> starts_with_chr c (a ++ b) = starts_with_chr c a.
Proof. destruct a; [intros N; exfalso; apply N; reflexivity|reflexivity]. Qed.

Lemma no_pair_app (c : ascii) (a b : str) :
  no_pair c (a ++ b) -> no_pair c a /\ no_pair c b.
Proof.
  induction a as [|h a IH]; cbn [app no_pair]; [tauto|].
  intros (H & N). destruct (IH N) as (Na & Nb).
  split; [|exact Nb]. split; [|exact Na].
  intros E. specialize (H E).
  destruct a as [|h' a]; [reflexivity|exact H].
Qed.

Lemma no_pair_part (c : ascii) (a x : str) :
  part_of a x -> no_pair c x -> no_pair c a.
Proof.
  intros (pre & post & ->) N.
  apply no_pair_app in N. destruct N as (_ & N).
  apply no_pair_app in N. exact (proj1 N).
Qed.

Lemma no_pair_not_part (c : ascii) (x : str) :
  no_pair c x -> ~ part_of [c; c] x.
Proof.
  intros N P. pose proof (no_pair_part c _ _ P N) as (H & _).
  specialize (H (chr_eqb_refl c)). cbn in H.
  rewrite chr_eqb_refl in H. discriminate H.
Qed.

Lemma collapse_no_pair (x : str) :
  forall b,
    no_pair " "%char (collapse_spaces b x)
    /\ (b = true ->
        starts_with_chr " "%char (collapse_spaces b x) = false).
Proof.
  induction x as [|c x IH]; intros b; [split; [exact I|reflexivity]|].
  cbn [collapse_spaces].
  destruct (is_space_chr c) eqn:E.
  - destruct b.
    + apply IH.
    + split; [|discriminate].
      cbn [no_pair]. split; [intros _; apply (IH true); reflexivity|].
      apply (IH true).
  - split.
    + cbn [no_pair]. split; [|apply (IH false)].
      unfold is_space_chr in E. rewrite E. discriminate.
    + intros _. cbn [starts_with_chr]. exact E.
Qed.

(** A replacement of a newline for something keeps runs of spaces apart. *)
Lemma replace_from_starts (old : str) (x : str) :
  starts_with_chr " "%char (replace_from x old [NL] 0) = true ->
  starts_with_chr " "%char x = true.
Proof.
  destruct x as [|c x]; cbn [replace_from]; [discriminate|].
  destruct (startswith (c :: x) old); [discriminate|].
  intros H. exact H.
Qed.

Lemma replace_from_no_pair (old : str) (x : str) :
  forall skip,
    no_pair " "%char x ->
    no_pair " "%char (replace_from x old [NL] skip).
Proof.
  induction x as [|c x IH]; intros skip N.
  - destruct skip; exact I.
  - destruct N as (H & N).
    destruct skip as [|k]; cbn [replace_from]; [|exact (IH _ N)].
    destruct (startswith (c :: x) old).
    + cbn [app no_pair]. split; [discriminate|exact (IH _ N)].
    + cbn [no_pair]. split; [|exact (IH _ N)].
      intros E. specialize (H E).
      destruct (starts_with_chr " "%char (replace_from x old [NL] 0)) eqn:S;
        [|reflexivity].
      apply replace_from_starts in S. rewrite S in H. discriminate H.
Qed.

(** X17. The normalizer returns a text without two spaces in a row. *)
Theorem clean_text_single_spaces (text : str) :
  ~ part_of (s "  ") (clean_text_for_clause_detection text).
Proof.
  apply (no_pair_not_part " "%char).
  unfold clean_text_for_clause_detection. cbv zeta.
  eapply no_pair_part; [apply strip_part|].
  unfold replace. do 2 apply replace_from_no_pair.
  rewrite sub_spaces_collapse. apply collapse_no_pair.
Qed.

(** ** The cleaning of extracted text *)

Lemma not_in_no_pair (c : ascii) (x : str) :
  ~ In c x -> no_pair c x /\ starts_with_chr c x = false.
Proof.
  induction x as [|h x IH]; intros N; [split; [exact I|reflexivity]|].
  assert (Nh : chr_eqb c h = false).
  { unfold chr_eqb. apply Ascii.eqb_neq. intros E. apply N. left.
    symmetry. exact E. }
  destruct IH as (Nx & _); [intros H; apply N; right; exact H|].
  split; [|exact Nh].
  cbn [no_pair]. split; [rewrite Nh; discriminate|exact Nx].
Qed.

Lemma no_pair_around (c : ascii) (a r : str) :
  ~ In c a -> no_pair c r -> starts_with_chr c r = false ->
  no_pair c (a ++ c :: r).
Proof.
  intros Na Nr Sr. induction a as [|h a IH]; cbn [app no_pair].
  - split; [intros _; exact Sr|exact Nr].
  - split; [|apply IH; intros H; apply Na; right; exact H].
    intros E. exfalso. apply Na. left.
    unfold chr_eqb in E. apply Ascii.eqb_eq in E. symmetry. exact E.
Qed.

Lemma join_no_pair (c : ascii) (lines : list str) :
  Forall (fun line => line <> [] /\ ~ In c line) lines ->
  no_pair c (join [c] lines)
  /\ starts_with_chr c (join [c] lines) = false.
Proof.
  induction 1 as [|x l (Nx & Ix) _ IH]; [split; [exact I|reflexivity]|].
  destruct l as [|y l]; [exact (not_in_no_pair c x Ix)|].
  rewrite join_cons. destruct IH as (Nj & Sj).
  split.
  - apply no_pair_around; assumption.
  - rewrite (starts_with_chr_app c x _ Nx). apply (not_in_no_pair c x Ix).
Qed.

Lemma collapse_keeps_no_pair (c : ascii) (x : str) :
  is_space_chr c = false ->
  forall b,
    no_pair c x ->
    no_pair c (collapse_spaces b x)
    /\ (starts_with_chr c (collapse_spaces b x) = true ->
        starts_with_chr c x = true \/ b = true).
Proof.
  intros Nc. induction x as [|a x IH]; intros b N;
    [split; [exact I|discriminate]|].
  destruct N as (H & N). cbn [collapse_spaces].
  assert (Ca : is_space_chr a = true -> chr_eqb c a = false).
  { intros E. apply is_space_chr_eq in E. subst a.
    unfold chr_eqb. apply Ascii.eqb_neq. intros ->.
    unfold is_space_chr in Nc. rewrite chr_eqb_refl in Nc. discriminate Nc. }
  destruct (is_space_chr a) eqn:E.
  - destruct b.
    + destruct (IH true N) as (P & _). split; [exact P|].
      intros _. right. reflexivity.
    + destruct (IH true N) as (P & _). split.
      * cbn [no_pair]. split; [rewrite (Ca eq_refl); discriminate|exact P].
      * cbn [starts_with_chr]. rewrite (Ca eq_refl). discriminate.
  - destruct (IH false N) as (P & Q). split.
    + cbn [no_pair]. split; [|exact P].
      intros Ea. specialize (H Ea).
      destruct (starts_with_chr c (collapse_spaces false x)) eqn:S;
        [|reflexivity].
      destruct (Q eq_refl) as [Sx|F]; [|discriminate F].
      rewrite Sx in H. discriminate H.
    + cbn [starts_with_chr]. intros Ea. left. exact Ea.
Qed.

Lemma clean_lines (text : str) :
  Forall (fun line => line <> [] /\ ~ In NL line)
    (nonempty_lines (strip_lines (str_split text NL))).
Proof.
  unfold nonempty_lines, strip_lines. apply Forall_forall. intros line H.
  apply filter_In in H. destruct H as (H & T).
  split; [apply truthy_list_true; exact T|].
  apply in_map_iff in H. destruct H as (raw & <- & R).
  intros I. apply strip_incl in I.
  pose proof (str_split_no_sep text NL) as F.
  rewrite Forall_forall in F. exact (F raw R I).
Qed.

(** X18. The cleaning of extracted text returns a text without whitespace
    at either end, without two spaces in a row and without an empty line;
    for a blank text it returns the empty text. *)
Theorem clean_extracted_text_normal_form (text : str) :
  strip (clean_extracted_text text) = clean_extracted_text text
  /\ ~ part_of (s "  ") (clean_extracted_text text)
  /\ ~ part_of [NL; NL] (clean_extracted_text text)
  /\ (blank text -> clean_extracted_text text = []).
Proof.
  unfold clean_extracted_text.
  destruct (negb (truthy_list text)).
  - split; [reflexivity|].
    split; [intros (pre & post & E); destruct pre; discriminate E|].
    split; [intros (pre & post & E); destruct pre; discriminate E|].
    reflexivity.
  - cbv zeta. rewrite sub_spaces_collapse.
    set (lines := nonempty_lines (strip_lines (str_split text NL))).
    split; [apply strip_idem|].
    split; [|split].
    + apply (no_pair_not_part " "%char).
      eapply no_pair_part; [apply strip_part|]. apply collapse_no_pair.
    + apply (no_pair_not_part NL).
      eapply no_pair_part; [apply strip_part|].
      apply collapse_keeps_no_pair; [reflexivity|].
      apply join_no_pair. apply clean_lines.
    + intros B.
      assert (L : lines = []).
      { unfold lines, nonempty_lines, strip_lines.
        destruct (filter _ _) as [|line rest] eqn:F; [reflexivity|].
        assert (I : In line (filter (fun line => truthy_list line)
                               (map strip (str_split text NL))))
          by (rewrite F; left; reflexivity).
        apply filter_In in I. destruct I as (I & T).
        apply in_map_iff in I. destruct I as (raw & <- & R).
        rewrite strip_blank in T; [discriminate T|].
        unfold blank in *. rewrite Forall_forall in *.
        intros c Hc. apply B. exact (str_split_incl _ _ _ _ R Hc). }
      rewrite L. reflexivity.
Qed.
